(** * juejin_checkin.py: the daily check-in workflow, embedded and verified

    The script is one class, [JueJinAutoCheckin], whose methods log, call
    two HTTP endpoints through a retrying wrapper, interpret the JSON
    answer and notify a webhook.  The embedding keeps that shape:

    - Python [str] values are lists of Unicode code points, so that
      slicing ([text[:100]]) and [split]/[strip] count characters and not
      bytes;
    - decoded JSON is the tree of Python objects [json.loads] builds;
    - every effect (log line, sleep, HTTP call) is appended to a trace,
      and what the outside world answers is read from an environment
      indexed by the number of calls made so far;
    - exceptions are explicit: a computation returns a value or raises.

    What belongs to the libraries is taken from their documented
    behaviour: a [requests.Response] is false in a boolean test exactly
    for the status codes 400 to 599, [Response.json()] returns the decoded
    body or raises [JSONDecodeError], and [dict.get] exists on dicts only.
    Writing a log line (console and file) is taken to succeed, and the
    exceptions considered are the subclasses of [Exception]. *)

From Stdlib Require Import ZArith NArith List String Ascii DecimalString Lia Bool.
From stdpp Require Import base gmap list.

Local Open Scope Z_scope.

(** ** Python strings *)

Abbreviation pystr := (list N).

(** UTF-8 decoding, used only to write the script's literals. *)
Fixpoint utf8_decode (bs : list N) : pystr :=
  match bs with
  | [] => []
  | b0 :: r0 =>
    if (b0 <? 128)%N then b0 :: utf8_decode r0
    else if (b0 <? 224)%N then
      match r0 with
      | b1 :: r1 => ((b0 - 192) * 64 + (b1 - 128))%N :: utf8_decode r1
      | _ => []
      end
    else if (b0 <? 240)%N then
      match r0 with
      | b1 :: b2 :: r2 =>
        ((b0 - 224) * 4096 + (b1 - 128) * 64 + (b2 - 128))%N :: utf8_decode r2
      | _ => []
      end
    else
      match r0 with
      | b1 :: b2 :: b3 :: r3 =>
        ((b0 - 240) * 262144 + (b1 - 128) * 4096 + (b2 - 128) * 64 + (b3 - 128))%N
          :: utf8_decode r3
      | _ => []
      end
  end.

Definition py (s : string) : pystr :=
  utf8_decode (List.map N_of_ascii (list_ascii_of_string s)).
Arguments py : simpl never.

(** The characters the script names. *)
Definition ch_semicolon : N := 59.
Definition ch_equals : N := 61.
Definition ch_newline : N := 10.

(** [str.isspace] for one code point: the characters [str.strip()] removes. *)
Definition is_space (c : N) : bool :=
  ((9 <=? c) && (c <=? 13) || (28 <=? c) && (c <=? 32)
   || (c =? 133) || (c =? 160) || (c =? 5760)
   || (8192 <=? c) && (c <=? 8202)
   || (c =? 8232) || (c =? 8233) || (c =? 8239) || (c =? 8287) || (c =? 12288))%N.

Fixpoint str_lstrip (s : pystr) : pystr :=
  match s with
  | [] => []
  | c :: t => if is_space c then str_lstrip t else s
  end.

Definition str_rstrip (s : pystr) : pystr := rev (str_lstrip (rev s)).

(** [s.strip()] *)
Definition str_strip (s : pystr) : pystr := str_rstrip (str_lstrip s).

(** [s.split(sep)] for a one-character separator. *)
Fixpoint str_split (sep : N) (s : pystr) : list pystr :=
  match s with
  | [] => [[]]
  | c :: t =>
    if (c =? sep)%N then [] :: str_split sep t
    else match str_split sep t with
         | h :: r => (c :: h) :: r
         | [] => [[c]]
         end
  end.

(** [s.split(sep, 1)] for a one-character separator. *)
Fixpoint str_split1 (sep : N) (s : pystr) : list pystr :=
  match s with
  | [] => [[]]
  | c :: t =>
    if (c =? sep)%N then [[]; t]
    else match str_split1 sep t with
         | h :: r => (c :: h) :: r
         | [] => [[c]]
         end
  end.

(** [sep.join(parts)] *)
Fixpoint str_join (sep : pystr) (parts : list pystr) : pystr :=
  match parts with
  | [] => []
  | [p] => p
  | p :: rest => p ++ sep ++ str_join sep rest
  end.

Fixpoint str_startswith (p s : pystr) : bool :=
  match p, s with
  | [], _ => true
  | a :: p', b :: s' => (a =? b)%N && str_startswith p' s'
  | _ :: _, [] => false
  end.

(** [needle in hay] *)
Fixpoint str_in (needle hay : pystr) : bool :=
  str_startswith needle hay
  || match hay with
     | [] => false
     | _ :: t => str_in needle t
     end.

(** [str(n)] for an [int]. *)
Definition int_str (n : Z) : pystr := py (NilZero.string_of_int (Z.to_int n)).

(** [range(n)] *)
Definition range (n : Z) : list Z := List.map Z.of_nat (seq 0 (Z.to_nat n)).

(** ** Exceptions and results *)

(** The classes of exception the script can meet.  All of them derive
    from [Exception]; [RequestException] stands for the whole
    [requests.exceptions] hierarchy raised by the transport. *)
Inductive exn_class :=
| RequestException
| JSONDecodeError
| AttributeError
| ValueError
| OtherException.

(** An exception object: its class and [str(e)]. *)
Record exn := mkExn { exn_cls : exn_class; exn_msg : pystr }.

Definition is_RequestException (e : exn) : bool :=
  match exn_cls e with RequestException => true | _ => false end.

Definition is_JSONDecodeError (e : exn) : bool :=
  match exn_cls e with JSONDecodeError => true | _ => false end.

(** [except Exception] *)
Definition is_Exception (e : exn) : bool := true.

Inductive result (A : Type) :=
| Ret (a : A)
| Raise (e : exn).
Arguments Ret {A} a.
Arguments Raise {A} e.

(** ** Global configuration *)

Definition HEADERS : list (pystr * pystr) :=
  [ (py "User-Agent", py "Mozilla/5.0 (Windows NT 10.0; Win64; x64) AppleWebKit/537.36 (KHTML, like Gecko) Chrome/120.0.0.0 Safari/537.36");
    (py "Accept-Language", py "zh-CN,zh;q=0.9");
    (py "Referer", py "https://juejin.cn/");
    (py "Origin", py "https://juejin.cn") ].

Definition RETRY_TIMES : Z := 3.
Definition RETRY_INTERVAL : Z := 60.

(** ** The object *)

Record JueJinAutoCheckin := {
  juejin_cookie : pystr;
  feishu_token : pystr;
  checkin_url : pystr;
  user_info_url : pystr
}.

(** [__init__]: the two secrets come from the process environment, with
    the empty string as default. *)
Definition init (env_cookie env_token : option pystr) : JueJinAutoCheckin :=
  {| juejin_cookie := default [] env_cookie;
     feishu_token := default [] env_token;
     checkin_url := py "https://api.juejin.cn/growth_api/v1/check_in";
     user_info_url := py "https://api.juejin.cn/user_api/v1/user/get" |}.

(** ** Cookie parsing *)

(** One round of the loop body of [_parse_cookie].  The tuple unpacking
    [key, value = item.split("=", 1)] raises [ValueError] unless the list
    has two elements. *)
Definition parse_cookie_item (cookie_dict : gmap pystr pystr) (item : pystr)
  : result (gmap pystr pystr) :=
  let item := str_strip item in
  if str_in [ch_equals] item then
    match str_split1 ch_equals item with
    | [key; value] => Ret (<[key := value]> cookie_dict)
    | parts =>
      Raise (mkExn ValueError (py "not enough values to unpack (expected 2, got "
                                 ++ int_str (Z.of_nat (length parts)) ++ py ")"))
    end
  else Ret cookie_dict.

Fixpoint parse_cookie_items (cookie_dict : gmap pystr pystr) (items : list pystr)
  : result (gmap pystr pystr) :=
  match items with
  | [] => Ret cookie_dict
  | item :: rest =>
    match parse_cookie_item cookie_dict item with
    | Ret d => parse_cookie_items d rest
    | Raise e => Raise e
    end
  end.

Definition _parse_cookie (self : JueJinAutoCheckin) : result (gmap pystr pystr) :=
  match juejin_cookie self with
  | [] => Ret ∅
  | _ => parse_cookie_items ∅ (str_split ch_semicolon (juejin_cookie self))
  end.


(** ** Python values decoded from JSON *)

(** What the interpreter provides and the script only uses: the [float]
    type with its comparison to an [int] and its printing, and [repr] of
    a [str] (the quoting used when a string is printed inside a list or
    a dict). *)
Class PyLib := {
  pyfloat : Type;
  float_eq_int : pyfloat -> Z -> bool;
  float_repr : pyfloat -> pystr;
  str_repr : pystr -> pystr;
  (** a float has one value *)
  float_eq_int_unique f a b : float_eq_int f a = true -> float_eq_int f b = true -> a = b
}.

Set Warnings "-register-all".

Section Program.
Context {L : PyLib}.

(** The objects [json.loads] builds: [null], booleans, integers, floats,
    strings, arrays and objects (a [dict], first binding of a key wins in
    the association list). *)
Inductive pyval :=
| PNone
| PBool (b : bool)
| PInt (n : Z)
| PFloat (f : pyfloat)
| PStr (s : pystr)
| PList (items : list pyval)
| PDict (items : list (pystr * pyval)).

Definition type_name (v : pyval) : pystr :=
  match v with
  | PNone => py "NoneType"
  | PBool _ => py "bool"
  | PInt _ => py "int"
  | PFloat _ => py "float"
  | PStr _ => py "str"
  | PList _ => py "list"
  | PDict _ => py "dict"
  end.

Fixpoint dict_lookup (key : pystr) (items : list (pystr * pyval)) : option pyval :=
  match items with
  | [] => None
  | (k, v) :: rest => if decide (k = key) then Some v else dict_lookup key rest
  end.

(** [dict.get(key, dflt)] *)
Definition dict_get (items : list (pystr * pyval)) (key : pystr) (dflt : pyval) : pyval :=
  match dict_lookup key items with
  | Some v => v
  | None => dflt
  end.

(** [obj.get(key, dflt)]: only a [dict] has the method. *)
Definition py_get (obj : pyval) (key : pystr) (dflt : pyval) : result pyval :=
  match obj with
  | PDict items => Ret (dict_get items key dflt)
  | _ => Raise (mkExn AttributeError
                  (py "'" ++ type_name obj ++ py "' object has no attribute 'get'"))
  end.

(** [v == n] for an [int] literal [n]: numbers compare by value, and
    [bool] is a subclass of [int]. *)
Definition py_eq_int (v : pyval) (n : Z) : bool :=
  match v with
  | PInt m => m =? n
  | PBool b => (if b then 1 else 0) =? n
  | PFloat f => float_eq_int f n
  | _ => false
  end.

(** [repr(v)] *)
Fixpoint py_repr (v : pyval) : pystr :=
  match v with
  | PNone => py "None"
  | PBool b => if b then py "True" else py "False"
  | PInt n => int_str n
  | PFloat f => float_repr f
  | PStr s => str_repr s
  | PList items => py "[" ++ str_join (py ", ") (List.map py_repr items) ++ py "]"
  | PDict items =>
    py "{" ++ str_join (py ", ")
                (List.map (fun kv => str_repr (fst kv) ++ py ": " ++ py_repr (snd kv)) items)
       ++ py "}"
  end.

(** [str(v)], which is what an f-string field prints. *)
Definition py_str (v : pyval) : pystr :=
  match v with
  | PStr s => s
  | _ => py_repr v
  end.

(** ** Responses *)

(** A [requests.Response]: the status code, the body as text, and what
    [json()] does with the body: the decoded value, or a
    [JSONDecodeError] with its message. *)
Record Response := {
  status_code : Z;
  text : pystr;
  decoded : pyval + pystr
}.

Definition Response_json (r : Response) : result pyval :=
  match decoded r with
  | inl v => Ret v
  | inr msg => Raise (mkExn JSONDecodeError msg)
  end.

(** [Response.__bool__] is [Response.ok]: false exactly when
    [raise_for_status] would raise, that is for 4xx and 5xx codes. *)
Definition Response_bool (r : Response) : bool :=
  negb ((400 <=? status_code r) && (status_code r <? 600)).

(** Truth value of what [request_with_retry] returns ([None] is false). *)
Definition truthy (response : option Response) : bool :=
  match response with
  | None => false
  | Some r => Response_bool r
  end.

(** Reading an attribute of what [request_with_retry] returned:
    [None] has none. *)
Definition the_response (response : option Response) (attr : pystr) : result Response :=
  match response with
  | Some r => Ret r
  | None => Raise (mkExn AttributeError
                     (py "'NoneType' object has no attribute '" ++ attr ++ py "'"))
  end.

(** ** The world *)

(** What one call into [requests] does. *)
Inductive Outcome :=
| Returns (r : Response)
| Raises (e : exn).

(** The environment of one run: the text [datetime.now().strftime(...)]
    gives at the n-th log call, what the n-th call of [requests.request]
    does and what the n-th call of [requests.post] does. *)
Class World := {
  strftime_now : nat -> pystr;
  transport : nat -> Outcome;
  webhook : nat -> Outcome
}.

(** The observable effects, in the order they happen. *)
Inductive Event :=
| EvLog (line : pystr)
| EvSleep (seconds : Z)
| EvRequest (method url : pystr) (headers : list (pystr * pystr))
            (cookies : gmap pystr pystr) (timeout : Z)
| EvPost (url : pystr) (payload_text : pystr) (timeout : Z).

Definition is_log (e : Event) : bool := match e with EvLog _ => true | _ => false end.
Definition is_sleep (e : Event) : bool := match e with EvSleep _ => true | _ => false end.
Definition is_request (e : Event) : bool :=
  match e with EvRequest _ _ _ _ _ => true | _ => false end.
Definition is_post (e : Event) : bool := match e with EvPost _ _ _ => true | _ => false end.

Definition count (p : Event -> bool) (tr : list Event) : nat := length (List.filter p tr).
Arguments count : simpl never.

(** ** Computations: a trace in, a value or an exception and a trace out *)

Definition M (A : Type) : Type := list Event -> result A * list Event.

Definition ret {A} (a : A) : M A := fun tr => (Ret a, tr).

Definition bind {A B} (m : M A) (k : A -> M B) : M B :=
  fun tr =>
    match m tr with
    | (Ret a, tr') => k a tr'
    | (Raise e, tr') => (Raise e, tr')
    end.

Definition lift {A} (r : result A) : M A := fun tr => (r, tr).

(** [try: body  except <catches> as e: handler e] *)
Definition try_except {A} (body : M A) (catches : exn -> bool) (handler : exn -> M A) : M A :=
  fun tr =>
    match body tr with
    | (Ret a, tr') => (Ret a, tr')
    | (Raise e, tr') => if catches e then handler e tr' else (Raise e, tr')
    end.

(** [try: body  finally: cleanup]: the cleanup runs on both exits; an
    exception of the body is raised again after it. *)
Definition try_finally {A} (body : M A) (cleanup : M unit) : M A :=
  fun tr =>
    match body tr with
    | (r, tr') =>
      match cleanup tr' with
      | (Ret _, tr'') => (r, tr'')
      | (Raise e, tr'') => (Raise e, tr'')
      end
    end.

Definition when (b : bool) (m : M unit) : M unit := if b then m else ret tt.

End Program.

Notation "x <- m ;; k" := (bind m (fun x => k))
  (at level 100, m at next level, right associativity).
Notation "m ;;; k" := (bind m (fun _ => k))
  (at level 100, right associativity).

(** ** The methods of [JueJinAutoCheckin] *)

Section Methods.
Context {L : PyLib} {W : World}.
Variable self : JueJinAutoCheckin.

(** [time.sleep(seconds)] *)
Definition sleep (seconds : Z) : M unit := fun tr => (Ret tt, tr ++ [EvSleep seconds]).

(** [requests.request(method, url, headers=..., cookies=..., timeout=...)]:
    the call is recorded, and the world decides how it ends. *)
Definition requests_request (method url : pystr) (headers : list (pystr * pystr))
    (cookies : gmap pystr pystr) (timeout : Z) : M Response :=
  fun tr =>
    let tr' := tr ++ [EvRequest method url headers cookies timeout] in
    match transport (count is_request tr) with
    | Returns r => (Ret r, tr')
    | Raises e => (Raise e, tr')
    end.

(** [requests.post(url, headers=..., data=json.dumps(payload), timeout=...)]
    for the payload [{"msg_type": "text", "content": {"text": payload_text}}]. *)
Definition requests_post (url payload_text : pystr) (timeout : Z) : M Response :=
  fun tr =>
    let tr' := tr ++ [EvPost url payload_text timeout] in
    match webhook (count is_post tr) with
    | Returns r => (Ret r, tr')
    | Raises e => (Raise e, tr')
    end.

(** The [n]-th line of the log: the time stamp and the content. *)
Definition log_line (n : nat) (content : pystr) : pystr :=
  py "[" ++ strftime_now n ++ py "] " ++ content.

(** [log]: the line goes to the console and to the log file, and is
    returned. *)
Definition log (content : pystr) : M pystr :=
  fun tr =>
    let log_str := log_line (count is_log tr) content in
    (Ret log_str, tr ++ [EvLog log_str]).

Definition send_feishu_notify (title content : pystr) : M unit :=
  match feishu_token self with
  | [] => log (py "飞书Token未配置，跳过通知") ;;; ret tt
  | _ =>
    let url := py "https://open.feishu.cn/open-apis/bot/v2/hook/" ++ feishu_token self in
    let payload_text := py "【掘金自动签到】" ++ title ++ [ch_newline] ++ content in
    try_except
      (response <- requests_post url payload_text 10 ;;
       if status_code response =? 200
       then log (py "飞书通知发送成功") ;;; ret tt
       else log (py "飞书通知发送失败：" ++ text response) ;;; ret tt)
      is_Exception
      (fun e => log (py "飞书通知异常：" ++ exn_msg e) ;;; ret tt)
  end.

(** The body of the [for] loop of [request_with_retry], for the values
    [i] still to come.  [Some response] is the [return response] inside
    the [try]; [None] is falling out of the loop into [return None]. *)
Fixpoint request_with_retry_loop (method url : pystr) (indices : list Z)
  : M (option Response) :=
  match indices with
  | [] => ret None
  | i :: rest =>
    returned <-
      try_except
        (cookies <- lift (_parse_cookie self) ;;
         response <- requests_request method url HEADERS cookies 30 ;;
         ret (Some response))
        is_RequestException
        (fun e =>
           log (py "请求失败（第" ++ int_str (i + 1) ++ py "次）：" ++ exn_msg e) ;;;
           when (i <? RETRY_TIMES - 1) (sleep RETRY_INTERVAL) ;;;
           ret None) ;;
    match returned with
    | Some response => ret (Some response)
    | None => request_with_retry_loop method url rest
    end
  end.

Definition request_with_retry (method url : pystr) : M (option Response) :=
  request_with_retry_loop method url (range RETRY_TIMES).

Definition check_cookie_valid : M bool :=
  log (py "开始校验掘金Cookie有效性") ;;;
  response <- request_with_retry (py "GET") (user_info_url self) ;;
  if negb (truthy response) then
    log (py "Cookie校验请求失败") ;;; ret false
  else
    r <- lift (the_response response (py "status_code")) ;;
    if status_code r =? 200 then
      result <- lift (Response_json r) ;;
      err_no <- lift (py_get result (py "err_no") PNone) ;;
      if py_eq_int err_no 0 then
        data <- lift (py_get result (py "data") (PDict [])) ;;
        user_name <- lift (py_get data (py "user_name") (PStr (py "未知"))) ;;
        log (py "Cookie有效，当前用户：" ++ py_str user_name) ;;;
        ret true
      else
        err_msg <- lift (py_get result (py "err_msg") (PStr (py "未知错误"))) ;;
        log (py "Cookie无效：" ++ py_str err_msg) ;;;
        ret false
    else
      log (py "Cookie校验失败，状态码：" ++ int_str (status_code r)) ;;;
      ret false.

(** The last step of [juejin_checkin], from [err_no = result.get("err_no", -1)]
    to the end: what the workflow does once the response body is decoded. *)
Definition interpret_result (result : pyval) : M bool :=
  err_no <- lift (py_get result (py "err_no") (PInt (-1))) ;;
  if py_eq_int err_no 0 then
    data <- lift (py_get result (py "data") (PDict [])) ;;
    incr_point <- lift (py_get data (py "incr_point") (PInt 0)) ;;
    data' <- lift (py_get result (py "data") (PDict [])) ;;
    total_point <- lift (py_get data' (py "sum_point") (PInt 0)) ;;
    let success_log :=
      py "签到成功！获得矿石：" ++ py_str incr_point ++ py "，累计矿石：" ++ py_str total_point in
    log success_log ;;;
    send_feishu_notify (py "签到成功") success_log ;;;
    ret true
  else if py_eq_int err_no 165001 then
    log (py "今日已签到，无需重复操作") ;;;
    send_feishu_notify (py "已签到") (py "今日掘金已完成签到，无需重复操作") ;;;
    ret true
  else
    err_msg <- lift (py_get result (py "err_msg") (PStr (py "未知错误"))) ;;
    log (py "签到失败：" ++ py_str err_msg ++ py "（错误码：" ++ py_str err_no ++ py "）") ;;;
    send_feishu_notify (py "签到失败")
      (py "错误原因：" ++ py_str err_msg ++ py "（错误码：" ++ py_str err_no ++ py "），请手动签到") ;;;
    ret false.

Definition juejin_checkin : M bool :=
  log (py "===== 开始执行掘金签到 =====") ;;;
  valid <- check_cookie_valid ;;
  if negb valid then
    send_feishu_notify (py "签到失败") (py "Cookie无效/已过期，请重新导出更新") ;;;
    ret false
  else
    response <- request_with_retry (py "POST") (checkin_url self) ;;
    if negb (truthy response) then
      log (py "签到请求重试多次仍失败") ;;;
      send_feishu_notify (py "签到失败") (py "签到接口请求超时/异常，请手动签到") ;;;
      ret false
    else
      parsed <-
        try_except
          (r <- lift (the_response response (py "json")) ;;
           result <- lift (Response_json r) ;;
           ret (Some result))
          is_JSONDecodeError
          (fun _ =>
             r <- lift (the_response response (py "text")) ;;
             log (py "签到响应解析失败：" ++ text r) ;;;
             send_feishu_notify (py "签到失败")
               (py "接口响应异常：" ++ firstn 100 (text r)) ;;;
             ret None) ;;
      match parsed with
      | Some result => interpret_result result
      | None => ret false
      end.

Definition run : M unit :=
  try_finally
    (try_except
       (juejin_checkin ;;; ret tt)
       is_Exception
       (fun e =>
          log (py "签到流程异常：" ++ exn_msg e) ;;;
          send_feishu_notify (py "流程异常") (py "签到脚本执行出错：" ++ exn_msg e)))
    (log (py "===== 掘金签到流程结束 =====" ++ [ch_newline]) ;;; ret tt).

End Methods.

(** ** Vocabulary of the statements *)

(** A segment of a credential string, as a reader sees it: a key and a
    value around the first [=], possibly padded with white space, or a
    piece of text with no [=] at all. *)
Inductive segment :=
| KeyValue (lead key value trail : pystr)
| Malformed (s : pystr).

Definition segment_text (seg : segment) : pystr :=
  match seg with
  | KeyValue lead key value trail => lead ++ key ++ ch_equals :: value ++ trail
  | Malformed s => s
  end.

Definition no_char (c : N) (s : pystr) : bool := forallb (fun x => negb (x =? c)%N) s.

Definition no_lead_space (s : pystr) : bool :=
  match s with
  | [] => true
  | c :: _ => negb (is_space c)
  end.

Definition no_trail_space (s : pystr) : bool := no_lead_space (rev s).

(** The key is what stands before the first [=], the padding is only
    padding, and no part holds the separator [;]. *)
Definition well_formed (seg : segment) : bool :=
  match seg with
  | KeyValue lead key value trail =>
    forallb is_space lead && forallb is_space trail
    && no_char ch_semicolon key && no_char ch_equals key
    && no_char ch_semicolon value
    && no_lead_space key && no_trail_space value
  | Malformed s => no_char ch_semicolon s && no_char ch_equals s
  end.

Fixpoint segment_pairs (segs : list segment) : list (pystr * pystr) :=
  match segs with
  | [] => []
  | KeyValue _ key value _ :: rest => (key, value) :: segment_pairs rest
  | Malformed _ :: rest => segment_pairs rest
  end.

(** The white space a string starts with. *)
Fixpoint leading_space (s : pystr) : pystr :=
  match s with
  | [] => []
  | c :: t => if is_space c then c :: leading_space t else []
  end.

(** How a reader cuts a piece of text that holds no [;] into a segment. *)
Definition to_segment (p : pystr) : segment :=
  match str_split1 ch_equals (str_strip p) with
  | [key; value] =>
    KeyValue (leading_space p) key value (rev (leading_space (rev (str_lstrip p))))
  | _ => Malformed p
  end.

(** The assignments [cookie_dict[key] = value], in order. *)
Definition assign_all (pairs : list (pystr * pystr)) : gmap pystr pystr :=
  fold_left (fun d kv => <[fst kv := snd kv]> d) pairs ∅.

(** The cookies sent with every request. *)
Definition cookies_of (self : JueJinAutoCheckin) : gmap pystr pystr :=
  match _parse_cookie self with
  | Ret d => d
  | Raise _ => ∅
  end.

Section Vocabulary.
Context {L : PyLib} {W : World}.
Variable self : JueJinAutoCheckin.

(** One attempt of [request_with_retry], as it appears in the trace. *)
Definition attempt (method url : pystr) : Event :=
  EvRequest method url HEADERS (cookies_of self) 30.

(** The line [request_with_retry] logs when attempt number [i] raised [e],
    as the [n]-th line of the log. *)
Definition failure_line (n : nat) (i : Z) (e : exn) : pystr :=
  log_line n (py "请求失败（第" ++ int_str i ++ py "次）：" ++ exn_msg e).

(** The [k]-th call of [requests.request] raises the transport exception [e]. *)
Definition transport_fails (k : nat) (e : exn) : Prop :=
  transport k = Raises e /\ is_RequestException e = true.

Definition sleeps (tr : list Event) : list Z :=
  flat_map (fun ev => match ev with EvSleep s => [s] | _ => [] end) tr.

(** From the trace [tr], [juejin_checkin] logs its first line, finds the
    credential valid, and the wrapper hands it [r] as the answer of the
    check-in endpoint, the trace being [tr3] by then. *)
Definition checkin_response (tr : list Event) (r : Response) (tr3 : list Event) : Prop :=
  exists tr2,
    check_cookie_valid self
      (tr ++ [EvLog (log_line (count is_log tr) (py "===== 开始执行掘金签到 ====="))])
    = (Ret true, tr2) /\
    request_with_retry self (py "POST") (checkin_url self) tr2 = (Ret (Some r), tr3).

(** The call of the webhook that carries the notification [title], [body]. *)
Definition notification (title body : pystr) : Event :=
  EvPost (py "https://open.feishu.cn/open-apis/bot/v2/hook/" ++ feishu_token self)
         (py "【掘金自动签到】" ++ title ++ [ch_newline] ++ body) 10.

(** The last line [run] logs, when the trace is [tr]. *)
Definition end_of_run (tr : list Event) : Event :=
  EvLog (log_line (count is_log tr) (py "===== 掘金签到流程结束 =====" ++ [ch_newline])).

(** Some line of the log contains [needle]. *)
Definition logged (needle : pystr) (tr : list Event) : bool :=
  existsb (fun ev => match ev with EvLog line => str_in needle line | _ => false end) tr.

(** Some message posted to the webhook contains [needle]. *)
Definition posted (needle : pystr) (tr : list Event) : bool :=
  existsb (fun ev => match ev with EvPost _ payload_text _ => str_in needle payload_text
                              | _ => false end) tr.

(** How many messages one call of [send_feishu_notify] posts: one when a
    token is configured, none otherwise. *)
Definition posts_per_notification : nat :=
  match feishu_token self with
  | [] => 0%nat
  | _ => 1%nat
  end.

(** What a run may do to the outside: log, sleep the retry interval, call
    one of the two endpoints with the fixed headers, the parsed cookies
    and the 30 time-out, and post to the webhook of the configured token
    with the 10 time-out. *)
Definition allowed (ev : Event) : Prop :=
  match ev with
  | EvLog _ => True
  | EvSleep seconds => seconds = RETRY_INTERVAL
  | EvRequest _ _ _ _ _ =>
    ev = attempt (py "GET") (user_info_url self) \/
    ev = attempt (py "POST") (checkin_url self)
  | EvPost url _ timeout =>
    url = py "https://open.feishu.cn/open-apis/bot/v2/hook/" ++ feishu_token self /\
    timeout = 10
  end.

(** The computation [m] never raises. *)
Definition total {A} (m : M A) : Prop :=
  forall tr, exists a, fst (m tr) = Ret a.

(** The computation [m] only appends events to the trace; the events it
    appends satisfy [P]; among them are at most [reqs] requests and at
    most [naps] sleeps, and exactly [pr] webhook posts when [m] returns,
    [pR] when it raises. *)
Definition costs {A} (P : Event -> Prop) (m : M A) (reqs naps pr pR : nat) : Prop :=
  forall tr, exists ext,
    snd (m tr) = tr ++ ext /\ Forall P ext /\
    (count is_request ext <= reqs)%nat /\ (count is_sleep ext <= naps)%nat /\
    count is_post ext = match fst (m tr) with Ret _ => pr | Raise _ => pR end.

(** The time slept, in total. *)
Definition time_slept (tr : list Event) : Z := fold_right Z.add 0 (sleeps tr).

(** What one call of [request_with_retry] may append to the trace: log
    lines, sleeps of the retry interval, and the one request it is asked
    to make. *)
Definition wrapper_event (method url : pystr) (ev : Event) : Prop :=
  match ev with
  | EvLog _ => True
  | EvSleep seconds => seconds = RETRY_INTERVAL
  | EvRequest _ _ _ _ _ => ev = attempt method url
  | EvPost _ _ _ => False
  end.

End Vocabulary.

(** ** Scenarios *)

(** Concrete runs, used to exercise the statements below. *)
Module Scenario.

(** An interpreter for JSON documents that hold no float; strings nested
    in containers are quoted the simple way. *)
Definition plain : PyLib :=
  {| pyfloat := Empty_set;
     float_eq_int := fun f _ => match f with end;
     float_repr := fun f => match f with end;
     str_repr := fun s => py "'" ++ s ++ py "'";
     float_eq_int_unique := fun f => match f with end |}.

#[local] Existing Instance plain.

(** A literal in which ['] stands for the double quote. *)
Definition pyq (s : string) : pystr :=
  List.map (fun c => if (c =? 39)%N then 34%N else c) (py s).

Definition me : JueJinAutoCheckin :=
  init (Some (py "sessionid=abc123; uid=42")) (Some (py "hook-token")).

(** A credential with a padded segment, a segment with no [=], and a
    value that holds a [=]. *)
Definition mixed_segments : list segment :=
  [ KeyValue [] (py "sessionid") (py "abc123") [];
    KeyValue (py " ") (py "uid") (py "42") [];
    Malformed (py "junk");
    KeyValue [] (py "token") (py "a=b") (py " ") ].

Definition mixed : JueJinAutoCheckin :=
  init (Some (py "sessionid=abc123; uid=42;junk;token=a=b ")) None.

Definition timed_out : exn := mkExn RequestException (py "Read timed out.").

Definition user_info_ok : Response :=
  {| status_code := 200;
     text := pyq "{'err_no':0,'data':{'user_name':'keyasu'}}";
     decoded := inl (PDict [(py "err_no", PInt 0);
                            (py "data", PDict [(py "user_name", PStr (py "keyasu"))])]) |}.

Definition user_info_html : Response :=
  {| status_code := 200;
     text := py "<html>maintenance</html>";
     decoded := inr (py "Expecting value: line 1 column 1 (char 0)") |}.

Definition forbidden : Response :=
  {| status_code := 403;
     text := pyq "{'err_no':403,'err_msg':'must login'}";
     decoded := inl (PDict [(py "err_no", PInt 403); (py "err_msg", PStr (py "must login"))]) |}.

Definition user_info_expired : Response :=
  {| status_code := 200;
     text := pyq "{'err_no':403,'err_msg':'must login'}";
     decoded := inl (PDict [(py "err_no", PInt 403); (py "err_msg", PStr (py "must login"))]) |}.

Definition user_info_bare : Response :=
  {| status_code := 200; text := py "{}"; decoded := inl (PDict []) |}.

(** Check-in answers, each with the status code it comes with. *)
Definition points (code : Z) : Response :=
  {| status_code := code;
     text := pyq "{'err_no':0,'data':{'incr_point':5,'sum_point':105}}";
     decoded := inl (PDict [(py "err_no", PInt 0);
                            (py "data", PDict [(py "incr_point", PInt 5);
                                               (py "sum_point", PInt 105)])]) |}.

Definition null_data : Response :=
  {| status_code := 200;
     text := pyq "{'err_no':0,'data':null}";
     decoded := inl (PDict [(py "err_no", PInt 0); (py "data", PNone)]) |}.

Definition already (code : Z) : Response :=
  {| status_code := code;
     text := pyq "{'err_no':165001}";
     decoded := inl (PDict [(py "err_no", PInt 165001)]) |}.

Definition busy (code : Z) : Response :=
  {| status_code := code;
     text := pyq "{'err_no':500,'err_msg':'server busy'}";
     decoded := inl (PDict [(py "err_no", PInt 500); (py "err_msg", PStr (py "server busy"))]) |}.

Definition only_message (code : Z) : Response :=
  {| status_code := code;
     text := pyq "{'err_msg':'server busy'}";
     decoded := inl (PDict [(py "err_msg", PStr (py "server busy"))]) |}.

Definition gateway_page (code : Z) : Response :=
  {| status_code := code;
     text := py "<html><head><title>502 Bad Gateway</title></head><body><center><h1>502 Bad Gateway</h1></center><hr><center>nginx</center></body></html>";
     decoded := inr (py "Expecting value: line 1 column 1 (char 0)") |}.

(** The world in which [requests.request] does what [answers] says, call
    after call (and times out afterwards), the webhook accepts every
    message and the clock stands still. *)
Definition scripted (answers : list Outcome) : World :=
  {| strftime_now := fun _ => py "2024-01-01 08:00:00";
     transport := fun k => nth k answers (Raises timed_out);
     webhook := fun _ => Returns {| status_code := 200; text := py "{}";
                                    decoded := inl (PDict []) |} |}.

(** The trace when the check-in answer arrives, in the scenarios where
    the credential is valid and both requests are answered at once. *)
Definition trace_at_answer : list Event :=
  [ EvLog (py "[2024-01-01 08:00:00] ===== 开始执行掘金签到 =====");
    EvLog (py "[2024-01-01 08:00:00] 开始校验掘金Cookie有效性");
    attempt me (py "GET") (user_info_url me);
    EvLog (py "[2024-01-01 08:00:00] Cookie有效，当前用户：keyasu");
    attempt me (py "POST") (checkin_url me) ].

(** A credential that gives a key twice, and one that gives no pair. *)
Definition repeated_segments : list segment :=
  [ KeyValue [] (py "sid") (py "old") [];
    KeyValue (py " ") (py "uid") (py "42") [];
    KeyValue [] (py "sid") (py "new") [] ].

Definition repeated : JueJinAutoCheckin := init (Some (py "sid=old; uid=42;sid=new")) None.

Definition no_pairs : JueJinAutoCheckin := init (Some (py "junk; more")) (Some (py "hook-token")).

(** An exception that is not a transport exception. *)
Definition broken : exn := mkExn OtherException (py "unexpected keyword argument").

Definition refused : exn := mkExn RequestException (py "Connection refused").

(** A user-info answer that is valid JSON but not an object. *)
Definition user_info_list : Response :=
  {| status_code := 200; text := py "[]"; decoded := inl (PList []) |}.

(** The world of [scripted], with a webhook that does [hook] at every
    call. *)
Definition scripted_hook (answers : list Outcome) (hook : Outcome) : World :=
  {| strftime_now := fun _ => py "2024-01-01 08:00:00";
     transport := fun k => nth k answers (Raises timed_out);
     webhook := fun _ => hook |}.

End Scenario.

(** * Properties *)


(** ** Strings *)

Lemma str_in_char c s : str_in [c] s = true <-> In c s.
Proof.
  induction s as [|a s IH]; simpl.
  - split; [discriminate | tauto].
  - rewrite orb_true_iff, andb_true_r, N.eqb_eq, IH. split; intros [H|H]; auto.
Qed.

Lemma no_char_spec c s : no_char c s = true <-> ~ In c s.
Proof.
  unfold no_char. rewrite forallb_forall. split.
  - intros H Hin. specialize (H c Hin). rewrite N.eqb_refl in H. discriminate.
  - intros H x Hx. destruct (N.eqb_spec x c); [subst; tauto | reflexivity].
Qed.

Lemma str_split1_at c k v :
  ~ In c k -> str_split1 c (k ++ c :: v) = [k; v].
Proof.
  induction k as [|a k IH]; simpl; intros H.
  - now rewrite N.eqb_refl.
  - destruct (N.eqb_spec a c) as [->|Hne]; [tauto|].
    rewrite IH; [reflexivity | tauto].
Qed.

Lemma In_first_occurrence (c : N) s :
  In c s -> exists k v, s = k ++ c :: v /\ ~ In c k.
Proof.
  induction s as [|a s IH]; simpl; [tauto|]. intros H.
  destruct (N.eq_dec a c) as [->|Hne].
  - exists [], s. simpl. tauto.
  - destruct H as [H|H]; [tauto|].
    destruct (IH H) as (k & v & -> & Hk). exists (a :: k), v. simpl. split; [reflexivity | tauto].
Qed.

Lemma str_split_no_sep c s : ~ In c s -> str_split c s = [s].
Proof.
  induction s as [|a s IH]; simpl; intros H; [reflexivity|].
  destruct (N.eqb_spec a c) as [->|Hne]; [tauto|].
  rewrite IH; [reflexivity | tauto].
Qed.

Lemma str_split_at c p rest :
  ~ In c p -> str_split c (p ++ c :: rest) = p :: str_split c rest.
Proof.
  induction p as [|a p IH]; simpl; intros H.
  - now rewrite N.eqb_refl.
  - destruct (N.eqb_spec a c) as [->|Hne]; [tauto|].
    rewrite IH; [reflexivity | tauto].
Qed.

Lemma str_split_join c parts :
  parts <> [] -> Forall (fun p => ~ In c p) parts ->
  str_split c (str_join [c] parts) = parts.
Proof.
  induction parts as [|p rest IH]; [congruence|]. intros _ HF.
  inversion HF as [|? ? Hp Hrest]; subst.
  destruct rest as [|q rest].
  - simpl. now apply str_split_no_sep.
  - change (str_join [c] (p :: q :: rest)) with (p ++ c :: str_join [c] (q :: rest)).
    rewrite str_split_at by assumption. rewrite IH; [reflexivity | congruence | assumption].
Qed.

Lemma str_lstrip_In x s : In x (str_lstrip s) -> In x s.
Proof.
  induction s as [|a s IH]; simpl; [tauto|].
  destruct (is_space a); simpl; tauto.
Qed.

Lemma str_strip_In x s : In x (str_strip s) -> In x s.
Proof.
  unfold str_strip, str_rstrip. intros H.
  apply in_rev, str_lstrip_In in H. apply in_rev in H. now apply str_lstrip_In.
Qed.

Lemma str_lstrip_lead l m :
  forallb is_space l = true -> no_lead_space m = true -> str_lstrip (l ++ m) = m.
Proof.
  induction l as [|a l IH]; simpl; intros Hl Hm.
  - destruct m as [|b m]; simpl in *; [reflexivity|].
    now destruct (is_space b).
  - apply andb_true_iff in Hl as [-> Hl]. now apply IH.
Qed.

Lemma str_strip_padding l m r :
  forallb is_space l = true -> forallb is_space r = true ->
  m <> [] -> no_lead_space m = true -> no_trail_space m = true ->
  str_strip (l ++ m ++ r) = m.
Proof.
  intros Hl Hr Hne Hlead Htrail. unfold str_strip, str_rstrip.
  rewrite str_lstrip_lead; [|assumption|].
  - rewrite rev_app_distr. rewrite str_lstrip_lead.
    + apply rev_involutive.
    + rewrite forallb_forall in *. intros x Hx. apply Hr. now apply in_rev.
    + exact Htrail.
  - destruct m; [congruence | exact Hlead].
Qed.

(** ** Cookie parsing *)

Lemma parse_cookie_item_total d item : exists d', parse_cookie_item d item = Ret d'.
Proof.
  unfold parse_cookie_item.
  destruct (str_in [ch_equals] (str_strip item)) eqn:E; [|eauto].
  apply str_in_char, In_first_occurrence in E. destruct E as (k & v & -> & Hk).
  rewrite str_split1_at by assumption. eauto.
Qed.

Lemma parse_cookie_items_total items : forall d, exists d', parse_cookie_items d items = Ret d'.
Proof.
  induction items as [|item rest IH]; intros d; simpl; [eauto|].
  destruct (parse_cookie_item_total d item) as [d' ->]. apply IH.
Qed.

Lemma _parse_cookie_total self : exists d, _parse_cookie self = Ret d.
Proof.
  unfold _parse_cookie. destruct (juejin_cookie self); [eauto|].
  apply parse_cookie_items_total.
Qed.

(** The early return on an empty credential agrees with the loop. *)
Lemma _parse_cookie_loop self :
  _parse_cookie self = parse_cookie_items ∅ (str_split ch_semicolon (juejin_cookie self)).
Proof. unfold _parse_cookie. now destruct (juejin_cookie self). Qed.

Lemma is_space_no_char c l :
  is_space c = false -> forallb is_space l = true -> ~ In c l.
Proof.
  intros Hc Hl Hin. rewrite forallb_forall in Hl. specialize (Hl c Hin). congruence.
Qed.

Lemma segment_text_no_semicolon seg :
  well_formed seg = true -> ~ In ch_semicolon (segment_text seg).
Proof.
  destruct seg as [l k v t|s]; simpl; intros H.
  - repeat (apply andb_true_iff in H as [H ?]).
    rewrite !in_app_iff. simpl. rewrite in_app_iff.
    intros [Hin|[Hin|[Hin|[Hin|Hin]]]].
    + now apply (is_space_no_char ch_semicolon l).
    + now apply (no_char_spec ch_semicolon k).
    + discriminate.
    + now apply (no_char_spec ch_semicolon v).
    + now apply (is_space_no_char ch_semicolon t).
  - apply andb_true_iff in H as [H _]. now apply no_char_spec.
Qed.

Lemma parse_cookie_item_segment d seg :
  well_formed seg = true ->
  parse_cookie_item d (segment_text seg) =
  Ret (match seg with
       | KeyValue _ key value _ => <[key := value]> d
       | Malformed _ => d
       end).
Proof.
  destruct seg as [l k v t|s]; simpl; intros H; unfold parse_cookie_item.
  - repeat (apply andb_true_iff in H as [H ?]).
    replace (l ++ k ++ ch_equals :: v ++ t) with (l ++ (k ++ ch_equals :: v) ++ t)
      by now rewrite <- (app_assoc k).
    rewrite str_strip_padding; try assumption.
    + assert (Hin : In ch_equals (k ++ ch_equals :: v)) by (apply in_app_iff; simpl; auto).
      apply str_in_char in Hin. rewrite Hin.
      rewrite str_split1_at; [reflexivity | now apply no_char_spec].
    + now destruct k.
    + destruct k; [reflexivity | assumption].
    + unfold no_trail_space in *. rewrite rev_app_distr. simpl.
      destruct (rev v); [reflexivity | assumption].
  - apply andb_true_iff in H as [_ H].
    destruct (str_in [ch_equals] (str_strip s)) eqn:E; [|reflexivity].
    apply str_in_char, str_strip_In in E. now apply no_char_spec in H.
Qed.

Lemma parse_cookie_items_segments segs : forall d,
  forallb well_formed segs = true ->
  parse_cookie_items d (List.map segment_text segs) =
  Ret (fold_left (fun d kv => <[fst kv := snd kv]> d) (segment_pairs segs) d).
Proof.
  induction segs as [|seg rest IH]; intros d H; simpl; [reflexivity|].
  simpl in H. apply andb_true_iff in H as [Hseg Hrest].
  rewrite parse_cookie_item_segment by assumption.
  destruct seg; simpl; now rewrite IH.
Qed.

Lemma fold_insert_lookup (pairs : list (pystr * pystr)) : forall (d : gmap pystr pystr) k v,
  NoDup (List.map fst pairs) ->
  fold_left (fun d kv => <[fst kv := snd kv]> d) pairs d !! k = Some v <->
  In (k, v) pairs \/ (~ In k (List.map fst pairs) /\ d !! k = Some v).
Proof.
  induction pairs as [|[k0 v0] rest IH]; intros d k v Hnd; simpl.
  - tauto.
  - apply NoDup_cons in Hnd as [Hk0 Hnd]. rewrite list_elem_of_In in Hk0.
    rewrite IH by assumption. simpl.
    destruct (decide (k0 = k)) as [->|Hne].
    + rewrite lookup_insert_eq. split.
      * intros [H|[H1 H2]]; [tauto|]. left. left. congruence.
      * intros [[H|H]|[H _]]; [|tauto|tauto].
        right. split; [assumption|]. congruence.
    + rewrite lookup_insert_ne by assumption. split.
      * intros [H|[H1 H2]]; [tauto|]. right. tauto.
      * intros [[H|H]|[H1 H2]]; [congruence|tauto|]. right. tauto.
Qed.

(** Every credential string is a sequence of well-formed segments. *)

Lemma leading_space_lstrip s : leading_space s ++ str_lstrip s = s.
Proof.
  induction s as [|c t IH]; simpl; [reflexivity|].
  destruct (is_space c); simpl; [now rewrite IH | reflexivity].
Qed.

Lemma leading_space_all s : forallb is_space (leading_space s) = true.
Proof.
  induction s as [|c t IH]; simpl; [reflexivity|].
  destruct (is_space c) eqn:E; simpl; [now rewrite E | reflexivity].
Qed.

Lemma str_lstrip_no_lead s : no_lead_space (str_lstrip s) = true.
Proof.
  induction s as [|c t IH]; simpl; [reflexivity|].
  destruct (is_space c) eqn:E; [assumption | simpl; now rewrite E].
Qed.

Lemma str_rstrip_trailing s : str_rstrip s ++ rev (leading_space (rev s)) = s.
Proof.
  unfold str_rstrip. rewrite <- rev_app_distr, leading_space_lstrip. apply rev_involutive.
Qed.

Lemma str_strip_parts p :
  leading_space p ++ str_strip p ++ rev (leading_space (rev (str_lstrip p))) = p.
Proof.
  unfold str_strip. rewrite str_rstrip_trailing. apply leading_space_lstrip.
Qed.

Lemma str_strip_no_lead p : no_lead_space (str_strip p) = true.
Proof.
  unfold str_strip. pose proof (str_rstrip_trailing (str_lstrip p)) as H.
  pose proof (str_lstrip_no_lead p) as Hl.
  destruct (str_rstrip (str_lstrip p)) as [|c t]; [reflexivity|].
  rewrite <- H in Hl. exact Hl.
Qed.

Lemma str_strip_no_trail p : no_trail_space (str_strip p) = true.
Proof.
  unfold no_trail_space, str_strip, str_rstrip. rewrite rev_involutive.
  apply str_lstrip_no_lead.
Qed.

Lemma str_split1_no_sep c s : ~ In c s -> str_split1 c s = [s].
Proof.
  induction s as [|a s IH]; simpl; intros H; [reflexivity|].
  destruct (N.eqb_spec a c) as [->|Hne]; [tauto|].
  rewrite IH; [reflexivity | tauto].
Qed.

Lemma to_segment_well_formed p :
  ~ In ch_semicolon p ->
  segment_text (to_segment p) = p /\ well_formed (to_segment p) = true.
Proof.
  intros Hsemi. unfold to_segment.
  destruct (in_dec N.eq_dec ch_equals (str_strip p)) as [Hin|Hout].
  - destruct (In_first_occurrence _ _ Hin) as (k & v & Hcore & Hk).
    rewrite Hcore, str_split1_at by assumption. cbn [segment_text well_formed].
    split.
    + rewrite <- (str_strip_parts p) at 3. rewrite Hcore, <- !app_assoc. reflexivity.
    + assert (Hsub : forall x, In x (k ++ ch_equals :: v) -> In x p)
        by (intros x; rewrite <- Hcore; apply str_strip_In).
      rewrite !andb_true_iff. repeat split.
      * apply leading_space_all.
      * rewrite forallb_forall. intros x Hx. apply in_rev in Hx.
        pose proof (leading_space_all (rev (str_lstrip p))) as Hall.
        rewrite forallb_forall in Hall. now apply Hall.
      * apply no_char_spec. intros Hx. apply Hsemi, Hsub, in_app_iff. now left.
      * now apply no_char_spec.
      * apply no_char_spec. intros Hx. apply Hsemi, Hsub, in_app_iff. right. now right.
      * pose proof (str_strip_no_lead p) as Hl. rewrite Hcore in Hl. now destruct k.
      * pose proof (str_strip_no_trail p) as Ht. unfold no_trail_space in *.
        rewrite Hcore, rev_app_distr in Ht. simpl in Ht.
        destruct (rev v); [reflexivity | exact Ht].
  - rewrite str_split1_no_sep by assumption. cbn [segment_text well_formed].
    split; [reflexivity|]. rewrite andb_true_iff. split; apply no_char_spec; [assumption|].
    intros Hin. rewrite <- (str_strip_parts p), !in_app_iff in Hin.
    destruct Hin as [Hin|[Hin|Hin]]; [|tauto|].
    + now apply (is_space_no_char ch_equals _ eq_refl (leading_space_all p)).
    + apply in_rev in Hin.
      now apply (is_space_no_char ch_equals _ eq_refl
                   (leading_space_all (rev (str_lstrip p)))).
Qed.

Lemma str_split_nonempty c s : str_split c s <> [].
Proof.
  destruct s as [|a t]; simpl; [discriminate|].
  destruct (a =? c)%N; [discriminate|]. now destruct (str_split c t).
Qed.

Lemma str_join_cons c p q rest :
  str_join [c] (p :: q :: rest) = p ++ c :: str_join [c] (q :: rest).
Proof. reflexivity. Qed.

Lemma str_join_split c s : str_join [c] (str_split c s) = s.
Proof.
  induction s as [|a t IH]; [reflexivity|]. simpl.
  pose proof (str_split_nonempty c t) as Hne.
  destruct (N.eqb_spec a c) as [->|Hac].
  - destruct (str_split c t) as [|h r]; [congruence|].
    rewrite str_join_cons, IH. reflexivity.
  - destruct (str_split c t) as [|h r]; [congruence|].
    destruct r as [|q r].
    + simpl in *. now rewrite IH.
    + rewrite str_join_cons. rewrite str_join_cons in IH. cbn [app]. now rewrite IH.
Qed.

Lemma str_split_parts c s : forall p, In p (str_split c s) -> ~ In c p.
Proof.
  induction s as [|a t IH]; simpl.
  - intros p [<-|[]]. tauto.
  - destruct (N.eqb_spec a c) as [->|Hac].
    + intros p [<-|Hp]; [tauto | now apply IH].
    + destruct (str_split c t) as [|h r]; simpl.
      * intros p [<-|[]]. simpl. tauto.
      * intros p [<-|Hp].
        -- simpl. intros [H|H]; [congruence|]. apply (IH h); simpl; auto.
        -- apply IH. simpl. auto.
Qed.

Lemma cookie_segments_complete cookie :
  let segs := List.map to_segment (str_split ch_semicolon cookie) in
  str_join [ch_semicolon] (List.map segment_text segs) = cookie /\
  forallb well_formed segs = true.
Proof.
  intros segs. subst segs. split.
  - rewrite map_map. rewrite <- (str_join_split ch_semicolon cookie) at 2. f_equal.
    rewrite <- (map_id (str_split ch_semicolon cookie)) at 2.
    apply map_ext_in. intros p Hp.
    now apply to_segment_well_formed, (str_split_parts ch_semicolon cookie).
  - rewrite forallb_forall. intros seg Hseg. apply in_map_iff in Hseg as (p & <- & Hp).
    now apply to_segment_well_formed, (str_split_parts ch_semicolon cookie).
Qed.

(** C8.  Cookie parsing never raises.  On a credential made of
    well-formed segments joined by [;] it performs exactly the
    assignments [cookie_dict[key] = value] of the key=value segments, each
    split at its first [=] and stripped of its padding, and skips the
    segments with no [=]; with distinct keys the resulting mapping holds
    exactly those pairs.  Every credential string is made of such
    segments. *)
Theorem parse_cookie_well_formed :
  (forall self, exists d, _parse_cookie self = Ret d) /\
  (forall self, exists segs,
     juejin_cookie self = str_join [ch_semicolon] (List.map segment_text segs) /\
     forallb well_formed segs = true) /\
  (forall self segs,
     juejin_cookie self = str_join [ch_semicolon] (List.map segment_text segs) ->
     forallb well_formed segs = true ->
     _parse_cookie self = Ret (assign_all (segment_pairs segs)) /\
     (NoDup (List.map fst (segment_pairs segs)) ->
      forall k v, assign_all (segment_pairs segs) !! k = Some v <->
                  In (k, v) (segment_pairs segs))).
Proof.
  split; [exact _parse_cookie_total|]. split.
  { intros self. exists (List.map to_segment (str_split ch_semicolon (juejin_cookie self))).
    destruct (cookie_segments_complete (juejin_cookie self)) as [H1 H2]. now split. }
  intros self segs Hcookie Hwf. split.
  - rewrite _parse_cookie_loop, Hcookie. destruct segs as [|seg rest]; [reflexivity|].
    rewrite str_split_join.
    + now apply parse_cookie_items_segments.
    + discriminate.
    + apply List.Forall_forall. intros p Hp. apply in_map_iff in Hp as (sg & <- & Hsg).
      apply segment_text_no_semicolon. rewrite forallb_forall in Hwf. now apply Hwf.
  - intros Hnd k v. unfold assign_all. rewrite fold_insert_lookup by assumption.
    rewrite lookup_empty. split; [intros [H|[_ H]]; [assumption | discriminate] | tauto].
Qed.

Lemma _parse_cookie_cookies_of self : _parse_cookie self = Ret (cookies_of self).
Proof. unfold cookies_of. now destruct (_parse_cookie_total self) as [d ->]. Qed.

(** ** Traces *)

Section Traces.
Context {L : PyLib}.

Lemma count_app p (a b : list Event) : (count p (a ++ b) = count p a + count p b)%nat.
Proof. unfold count. now rewrite List.filter_app, length_app. Qed.

Lemma count_cons p e (l : list Event) :
  count p (e :: l) = ((if p e then 1 else 0) + count p l)%nat.
Proof. unfold count. simpl. now destruct (p e). Qed.

Lemma count_nil p : count p [] = 0%nat.
Proof. reflexivity. Qed.

Lemma sleeps_app (a b : list Event) : sleeps (a ++ b) = sleeps a ++ sleeps b.
Proof. unfold sleeps. apply flat_map_app. Qed.

End Traces.

Ltac count_events :=
  cbn [fst snd];
  rewrite ?count_app, ?count_cons, ?count_nil;
  cbn [is_request is_log is_sleep is_post attempt fst snd Nat.add].

(** ** The retrying wrapper *)

Section Wrapper.
Context {L : PyLib} {W : World}.
Variable self : JueJinAutoCheckin.

Lemma loop_returns method url i rest tr r :
  transport (count is_request tr) = Returns r ->
  request_with_retry_loop self method url (i :: rest) tr =
  (Ret (Some r), tr ++ [attempt self method url]).
Proof.
  intros H. simpl. unfold bind, try_except, lift, requests_request, ret.
  now rewrite _parse_cookie_cookies_of, H.
Qed.

Lemma loop_propagates method url i rest tr e :
  transport (count is_request tr) = Raises e -> is_RequestException e = false ->
  request_with_retry_loop self method url (i :: rest) tr =
  (Raise e, tr ++ [attempt self method url]).
Proof.
  intros H He. simpl. unfold bind, try_except, lift, requests_request, ret.
  now rewrite _parse_cookie_cookies_of, H, He.
Qed.

Lemma loop_retries method url i rest tr e :
  transport (count is_request tr) = Raises e -> is_RequestException e = true ->
  request_with_retry_loop self method url (i :: rest) tr =
  request_with_retry_loop self method url rest
    (tr ++ [attempt self method url; EvLog (failure_line (count is_log tr) (i + 1) e)]
        ++ (if i <? RETRY_TIMES - 1 then [EvSleep RETRY_INTERVAL] else [])).
Proof.
  intros H He. simpl. unfold bind, try_except, lift, requests_request, ret.
  rewrite _parse_cookie_cookies_of, H, He. unfold log, when, sleep, ret, failure_line.
  rewrite count_app. simpl. rewrite Nat.add_0_r.
  destruct (i <? RETRY_TIMES - 1); simpl; now rewrite <- !app_assoc.
Qed.

Lemma range_RETRY_TIMES : range RETRY_TIMES = [0; 1; 2].
Proof. reflexivity. Qed.

Lemma loop_attempts_le method url indices : forall tr,
  (count is_request (snd (request_with_retry_loop self method url indices tr))
   <= count is_request tr + length indices)%nat.
Proof.
  induction indices as [|i rest IH]; intros tr.
  - simpl. lia.
  - destruct (transport (count is_request tr)) as [r|e] eqn:Ht.
    + rewrite (loop_returns _ _ _ _ _ _ Ht). count_events. simpl length. lia.
    + destruct (is_RequestException e) eqn:He.
      * rewrite (loop_retries _ _ _ _ _ _ Ht He). etransitivity; [apply IH|].
        destruct (i <? RETRY_TIMES - 1); count_events; simpl length; lia.
      * rewrite (loop_propagates _ _ _ _ _ _ Ht He). count_events. simpl length. lia.
Qed.

Lemma loop_returns_after method url indices : forall tr j r,
  (j < length indices)%nat ->
  (forall i, (i < j)%nat -> exists e, transport_fails (count is_request tr + i) e) ->
  transport (count is_request tr + j) = Returns r ->
  fst (request_with_retry_loop self method url indices tr) = Ret (Some r) /\
  count is_request (snd (request_with_retry_loop self method url indices tr))
  = (count is_request tr + j + 1)%nat.
Proof.
  induction indices as [|i0 rest IH]; intros tr j r Hj Hfail Hret; simpl in Hj; [lia|].
  destruct j as [|j].
  - rewrite Nat.add_0_r in Hret. rewrite (loop_returns _ _ _ _ _ _ Hret). count_events.
    split; [reflexivity | lia].
  - destruct (Hfail 0%nat ltac:(lia)) as (e & Ht & He). rewrite Nat.add_0_r in Ht.
    rewrite (loop_retries _ _ _ _ _ _ Ht He).
    set (tr2 := tr ++ _).
    assert (Hk : count is_request tr2 = S (count is_request tr)).
    { unfold tr2. destruct (i0 <? RETRY_TIMES - 1); count_events; lia. }
    destruct (IH tr2 j r) as [H1 H2].
    + lia.
    + intros i Hi. rewrite Hk. destruct (Hfail (S i) ltac:(lia)) as [e' He'].
      exists e'. now replace (S (count is_request tr) + i)%nat
                   with (count is_request tr + S i)%nat by lia.
    + rewrite Hk. now replace (S (count is_request tr) + j)%nat
                   with (count is_request tr + S j)%nat by lia.
    + split; [assumption|]. rewrite H2, Hk. lia.
Qed.

Lemma loop_further_attempt method url indices : forall tr i,
  (count is_request tr + i + 1
   < count is_request (snd (request_with_retry_loop self method url indices tr)))%nat ->
  exists e, transport_fails (count is_request tr + i) e.
Proof.
  induction indices as [|i0 rest IH]; intros tr i Hlt.
  - simpl in Hlt. lia.
  - destruct (transport (count is_request tr)) as [r|e] eqn:Ht.
    + rewrite (loop_returns _ _ _ _ _ _ Ht) in Hlt. revert Hlt. count_events. lia.
    + destruct (is_RequestException e) eqn:He.
      * rewrite (loop_retries _ _ _ _ _ _ Ht He) in Hlt.
        set (tr2 := tr ++ _) in Hlt.
        assert (Hk : count is_request tr2 = S (count is_request tr)).
        { unfold tr2. destruct (i0 <? RETRY_TIMES - 1); count_events; lia. }
        destruct i as [|i].
        -- exists e. rewrite Nat.add_0_r. now split.
        -- destruct (IH tr2 i) as [e' He'].
           ++ rewrite Hk. lia.
           ++ exists e'. rewrite Hk in He'.
              now replace (count is_request tr + S i)%nat
                with (S (count is_request tr) + i)%nat by lia.
      * rewrite (loop_propagates _ _ _ _ _ _ Ht He) in Hlt. revert Hlt. count_events. lia.
Qed.

(** C1.  [request_with_retry] makes at most 3 attempts.  It returns the
    response of the first attempt that does not raise a transport
    exception, and [None] when all 3 attempts raise one.  After a failed
    attempt it logs and sleeps 60, except after the third: a transport
    that fails twice and then answers costs exactly two sleeps. *)
Theorem request_with_retry_attempts method url tr :
  let k := count is_request tr in
  let n := count is_log tr in
  let a := attempt self method url in
  (count is_request (snd (request_with_retry self method url tr)) <= k + 3)%nat /\
  (forall r,
     transport k = Returns r ->
     request_with_retry self method url tr = (Ret (Some r), tr ++ [a])) /\
  (forall e1 r,
     transport_fails k e1 -> transport (k + 1) = Returns r ->
     request_with_retry self method url tr =
     (Ret (Some r), tr ++ [a; EvLog (failure_line n 1 e1); EvSleep 60; a])) /\
  (forall e1 e2 r,
     transport_fails k e1 -> transport_fails (k + 1) e2 -> transport (k + 2) = Returns r ->
     request_with_retry self method url tr =
     (Ret (Some r),
      tr ++ [a; EvLog (failure_line n 1 e1); EvSleep 60;
             a; EvLog (failure_line (n + 1) 2 e2); EvSleep 60; a]) /\
     sleeps (snd (request_with_retry self method url tr)) = sleeps tr ++ [60; 60]) /\
  (forall e1 e2 e3,
     transport_fails k e1 -> transport_fails (k + 1) e2 -> transport_fails (k + 2) e3 ->
     request_with_retry self method url tr =
     (Ret None,
      tr ++ [a; EvLog (failure_line n 1 e1); EvSleep 60;
             a; EvLog (failure_line (n + 1) 2 e2); EvSleep 60;
             a; EvLog (failure_line (n + 2) 3 e3)]) /\
     sleeps (snd (request_with_retry self method url tr)) = sleeps tr ++ [60; 60]).
Proof.
  intros k n a. unfold request_with_retry. rewrite range_RETRY_TIMES.
  assert (Hstep1 : forall e1, transport_fails k e1 ->
            request_with_retry_loop self method url [0; 1; 2] tr =
            request_with_retry_loop self method url [1; 2]
              (tr ++ [a; EvLog (failure_line n 1 e1); EvSleep 60])).
  { intros e1 [H1 He1]. now rewrite (loop_retries _ _ _ _ _ _ H1 He1). }
  assert (Hstep2 : forall e1 e2, transport_fails (k + 1) e2 ->
            request_with_retry_loop self method url [1; 2]
              (tr ++ [a; EvLog (failure_line n 1 e1); EvSleep 60]) =
            request_with_retry_loop self method url [2]
              (tr ++ [a; EvLog (failure_line n 1 e1); EvSleep 60;
                      a; EvLog (failure_line (n + 1) 2 e2); EvSleep 60])).
  { intros e1 e2 [H2 He2]. rewrite (loop_retries _ _ 1 [2] _ e2).
    - rewrite !count_app. simpl. now rewrite <- app_assoc.
    - rewrite count_app. exact H2.
    - exact He2. }
  assert (Hsleeps : forall (l1 l2 : pystr) (l3 : list Event),
            sleeps (tr ++ [a; EvLog l1; EvSleep 60; a; EvLog l2; EvSleep 60; a] ++ l3)
            = sleeps tr ++ [60; 60] ++ sleeps l3).
  { intros l1 l2 l3. rewrite !sleeps_app. reflexivity. }
  refine (conj _ (conj _ (conj _ (conj _ _)))).
  - apply (loop_attempts_le method url [0; 1; 2]).
  - intros r Hr. now apply loop_returns.
  - intros e1 r H1 Hr. rewrite (Hstep1 e1 H1), (loop_returns _ _ _ _ _ r).
    + now rewrite <- app_assoc.
    + now rewrite count_app.
  - intros e1 e2 r H1 H2 Hr.
    rewrite (Hstep1 e1 H1), (Hstep2 e1 e2 H2), (loop_returns _ _ _ _ _ r).
    + rewrite <- app_assoc. split; [reflexivity|]. cbn [snd app].
      rewrite <- (app_nil_r [a; _; _; a; _; _; a]), Hsleeps. reflexivity.
    + now rewrite count_app.
  - intros e1 e2 e3 H1 H2 [H3 He3]. rewrite (Hstep1 e1 H1), (Hstep2 e1 e2 H2).
    rewrite (loop_retries _ _ 2 [] _ e3).
    + rewrite !count_app. cbn [request_with_retry_loop ret]. rewrite <- app_assoc.
      split; [reflexivity|]. cbn [snd app].
      apply (Hsleeps _ _ [EvLog _]).
    + rewrite count_app. exact H3.
    + exact He3.
Qed.

(** C2.  A response is returned by the attempt that receives it, whatever
    its status code, so a non-200 response ends the wrapper at once; and
    an attempt is followed by another one only when it raised a transport
    exception. *)
Theorem request_with_retry_status_not_retried method url tr :
  let k := count is_request tr in
  let out := request_with_retry self method url tr in
  (forall r,
     status_code r <> 200 -> transport k = Returns r ->
     out = (Ret (Some r), tr ++ [attempt self method url])) /\
  (forall j r,
     status_code r <> 200 -> (j < 3)%nat ->
     (forall i, (i < j)%nat -> exists e, transport_fails (k + i) e) ->
     transport (k + j) = Returns r ->
     fst out = Ret (Some r) /\ count is_request (snd out) = (k + j + 1)%nat) /\
  (forall i,
     (k + i + 1 < count is_request (snd out))%nat ->
     exists e, transport_fails (k + i) e).
Proof.
  intros k out. unfold out, request_with_retry. rewrite range_RETRY_TIMES.
  repeat split.
  - intros r _ H. now apply loop_returns.
  - now apply (loop_returns_after method url [0; 1; 2] tr j r).
  - now apply (loop_returns_after method url [0; 1; 2] tr j r).
  - intros i. apply loop_further_attempt.
Qed.

End Wrapper.

(** ** The notifier *)

Section Workflow.
Context {L : PyLib} {W : World}.
Variable self : JueJinAutoCheckin.

Lemma send_feishu_notify_total title content tr :
  exists tr', send_feishu_notify self title content tr = (Ret tt, tr').
Proof.
  unfold send_feishu_notify. destruct (feishu_token self) as [|c token].
  - unfold bind, log, ret. eauto.
  - unfold try_except, bind, requests_post, log, ret, is_Exception.
    destruct (webhook (count is_post tr)) as [r|e]; [|eauto].
    destruct (status_code r =? 200); eauto.
Qed.

(** ** Credential validation *)

Lemma bind_lift_ret {A B} (a : A) (k : A -> M B) tr : bind (lift (Ret a)) k tr = k a tr.
Proof. reflexivity. Qed.


Ltac run_check_cookie_valid :=
  unfold check_cookie_valid; unfold bind at 1; unfold log at 1; cbv beta iota;
  unfold bind at 1.


(** ** The check-in workflow *)

Lemma str_startswith_app x b : str_startswith x (x ++ b) = true.
Proof. induction x as [|c x IH]; simpl; [reflexivity|]. now rewrite N.eqb_refl. Qed.

Lemma str_in_here x b : str_in x (x ++ b) = true.
Proof.
  destruct (x ++ b) eqn:E; simpl; rewrite <- E, str_startswith_app; reflexivity.
Qed.

Lemma str_in_middle x a b : str_in x (a ++ x ++ b) = true.
Proof.
  induction a as [|c a IH]; simpl.
  - apply str_in_here.
  - rewrite IH. apply orb_true_r.
Qed.

Lemma juejin_checkin_decoded tr r tr3 v :
  checkin_response self tr r tr3 -> Response_bool r = true -> decoded r = inl v ->
  juejin_checkin self tr = interpret_result self v tr3.
Proof.
  intros (tr2 & Hvalid & Hresp) Hbool Hd.
  unfold juejin_checkin. unfold bind at 1. unfold log at 1. cbv beta iota.
  unfold bind at 1. rewrite Hvalid. cbn [negb]. unfold bind at 1. rewrite Hresp.
  cbn [truthy]. rewrite Hbool. cbn [negb the_response].
  unfold bind at 1. unfold try_except. rewrite bind_lift_ret.
  unfold bind, lift, Response_json. now rewrite Hd.
Qed.

Lemma juejin_checkin_undecoded tr r tr3 msg :
  checkin_response self tr r tr3 -> Response_bool r = true -> decoded r = inr msg ->
  juejin_checkin self tr =
  (log (py "签到响应解析失败：" ++ text r) ;;;
   send_feishu_notify self (py "签到失败") (py "接口响应异常：" ++ firstn 100 (text r)) ;;;
   ret false) tr3.
Proof.
  intros (tr2 & Hvalid & Hresp) Hbool Hd.
  unfold juejin_checkin. unfold bind at 1. unfold log at 1. cbv beta iota.
  unfold bind at 1. rewrite Hvalid. cbn [negb]. unfold bind at 1. rewrite Hresp.
  cbn [truthy]. rewrite Hbool. cbn [negb the_response].
  unfold bind at 1. unfold try_except. rewrite bind_lift_ret.
  unfold bind at 1. unfold lift at 1. unfold Response_json.
  rewrite Hd. cbn [is_JSONDecodeError exn_cls]. rewrite bind_lift_ret.
  unfold bind, log, ret.
  destruct (send_feishu_notify_total (py "签到失败") (py "接口响应异常：" ++ firstn 100 (text r))
              (tr3 ++ [EvLog (log_line (count is_log tr3) (py "签到响应解析失败：" ++ text r))]))
    as [tr5 ->]. reflexivity.
Qed.

Lemma juejin_checkin_http_error tr r tr3 :
  checkin_response self tr r tr3 -> Response_bool r = false ->
  juejin_checkin self tr =
  (log (py "签到请求重试多次仍失败") ;;;
   send_feishu_notify self (py "签到失败") (py "签到接口请求超时/异常，请手动签到") ;;;
   ret false) tr3.
Proof.
  intros (tr2 & Hvalid & Hresp) Hbool.
  unfold juejin_checkin. unfold bind at 1. unfold log at 1. cbv beta iota.
  unfold bind at 1. rewrite Hvalid. cbn [negb]. unfold bind at 1. rewrite Hresp.
  cbn [truthy]. now rewrite Hbool.
Qed.

(** Logging a line and notifying, then returning [b]. *)
Lemma log_notify_ret line title body (b : bool) tr :
  exists tr5,
    (log line ;;; send_feishu_notify self title body ;;; ret b) tr = (Ret b, tr5) /\
    send_feishu_notify self title body (tr ++ [EvLog (log_line (count is_log tr) line)])
    = (Ret tt, tr5).
Proof.
  destruct (send_feishu_notify_total title body
              (tr ++ [EvLog (log_line (count is_log tr) line)])) as [tr5 H].
  exists tr5. split; [|assumption]. unfold bind, log, ret. now rewrite H.
Qed.

Lemma send_feishu_notify_posts title body tr tr' :
  feishu_token self <> [] ->
  send_feishu_notify self title body tr = (Ret tt, tr') ->
  In (notification self title body) tr'.
Proof.
  intros Htok. unfold send_feishu_notify, notification.
  destruct (feishu_token self) as [|c token]; [congruence|].
  unfold try_except, bind, requests_post, log, ret, is_Exception.
  destruct (webhook (count is_post tr)) as [r|e].
  - destruct (status_code r =? 200); intros [= <-]; rewrite !in_app_iff; simpl; auto.
  - intros [= <-]. rewrite !in_app_iff. simpl. auto.
Qed.

Lemma interpret_result_err_no items err_no tr :
  dict_lookup (py "err_no") items = Some err_no ->
  interpret_result self (PDict items) tr =
  (if py_eq_int err_no 0 then
     data <- lift (py_get (PDict items) (py "data") (PDict [])) ;;
     incr_point <- lift (py_get data (py "incr_point") (PInt 0)) ;;
     data' <- lift (py_get (PDict items) (py "data") (PDict [])) ;;
     total_point <- lift (py_get data' (py "sum_point") (PInt 0)) ;;
     let success_log :=
       py "签到成功！获得矿石：" ++ py_str incr_point ++ py "，累计矿石：" ++ py_str total_point in
     log success_log ;;;
     send_feishu_notify self (py "签到成功") success_log ;;;
     ret true
   else if py_eq_int err_no 165001 then
     log (py "今日已签到，无需重复操作") ;;;
     send_feishu_notify self (py "已签到") (py "今日掘金已完成签到，无需重复操作") ;;;
     ret true
   else
     let err_msg := dict_get items (py "err_msg") (PStr (py "未知错误")) in
     log (py "签到失败：" ++ py_str err_msg ++ py "（错误码：" ++ py_str err_no ++ py "）") ;;;
     send_feishu_notify self (py "签到失败")
       (py "错误原因：" ++ py_str err_msg ++ py "（错误码：" ++ py_str err_no ++ py "），请手动签到") ;;;
     ret false) tr.
Proof.
  intros Hno. unfold interpret_result. cbn [py_get]. rewrite bind_lift_ret.
  assert (Hget : dict_get items (py "err_no") (PInt (-1)) = err_no)
    by (unfold dict_get; now rewrite Hno).
  rewrite Hget.
  destruct (py_eq_int err_no 0); [reflexivity|].
  destruct (py_eq_int err_no 165001); reflexivity.
Qed.


(** C5, as the code has it.  When the check-in answer is not an HTTP
    error and decodes to an object whose [err_no] equals 165001, the
    workflow returns [True] and notifies "already checked in"; neither
    the title nor the body of that notification speaks of a failure. *)
Theorem checkin_already_done tr r tr3 items err_no :
  checkin_response self tr r tr3 ->
  Response_bool r = true ->
  decoded r = inl (PDict items) ->
  dict_lookup (py "err_no") items = Some err_no -> py_eq_int err_no 165001 = true ->
  let title := py "已签到" in
  let body := py "今日掘金已完成签到，无需重复操作" in
  exists tr5,
    juejin_checkin self tr = (Ret true, tr5) /\
    send_feishu_notify self title body
      (tr3 ++ [EvLog (log_line (count is_log tr3) (py "今日已签到，无需重复操作"))])
    = (Ret tt, tr5) /\
    (feishu_token self <> [] -> In (notification self title body) tr5) /\
    title <> py "签到失败" /\
    str_in (py "失败") (py "【掘金自动签到】" ++ title ++ [ch_newline] ++ body) = false.
Proof.
  intros Hresp Hbool Hd Hno Hdone title body.
  assert (Hzero : py_eq_int err_no 0 = false).
  { destruct err_no as [|b|n|f| | |]; try reflexivity; cbn [py_eq_int] in *.
    - destruct b; discriminate.
    - apply Z.eqb_eq in Hdone. subst n. reflexivity.
    - destruct (float_eq_int f 0) eqn:E; [|reflexivity].
      pose proof (float_eq_int_unique f _ _ E Hdone). discriminate. }
  rewrite (juejin_checkin_decoded _ _ _ _ Hresp Hbool Hd).
  rewrite (interpret_result_err_no _ _ _ Hno), Hzero, Hdone.
  destruct (log_notify_ret (py "今日已签到，无需重复操作") title body true tr3)
    as (tr5 & Hrun & Hnotify).
  exists tr5. repeat split; try assumption.
  - intros Htok. now apply (send_feishu_notify_posts _ _ _ _ Htok Hnotify).
  - vm_compute. discriminate.
Qed.




(** ** The top-level wrapper *)

(** C9.  [run] never raises.  When the workflow returns, [run] adds the
    end-of-run line; when the workflow raises [e], [run] logs the message
    of [e], notifies "process exception" with that message, and then adds
    the end-of-run line.  In both cases the last event of the run is the
    end-of-run line. *)
Theorem run_never_raises tr :
  (forall b tr1,
     juejin_checkin self tr = (Ret b, tr1) ->
     run self tr = (Ret tt, tr1 ++ [end_of_run tr1])) /\
  (forall e tr1,
     juejin_checkin self tr = (Raise e, tr1) ->
     exists tr3,
       send_feishu_notify self (py "流程异常") (py "签到脚本执行出错：" ++ exn_msg e)
         (tr1 ++ [EvLog (log_line (count is_log tr1) (py "签到流程异常：" ++ exn_msg e))])
       = (Ret tt, tr3) /\
       run self tr = (Ret tt, tr3 ++ [end_of_run tr3])) /\
  (exists tr', run self tr = (Ret tt, tr' ++ [end_of_run tr'])).
Proof.
  assert (Hret : forall b tr1, juejin_checkin self tr = (Ret b, tr1) ->
                 run self tr = (Ret tt, tr1 ++ [end_of_run tr1])).
  { intros b tr1 H. unfold run, try_finally, try_except. unfold bind at 1. now rewrite H. }
  assert (Hraise : forall e tr1, juejin_checkin self tr = (Raise e, tr1) ->
            exists tr3,
              send_feishu_notify self (py "流程异常") (py "签到脚本执行出错：" ++ exn_msg e)
                (tr1 ++ [EvLog (log_line (count is_log tr1) (py "签到流程异常：" ++ exn_msg e))])
              = (Ret tt, tr3) /\
              run self tr = (Ret tt, tr3 ++ [end_of_run tr3])).
  { intros e tr1 H.
    destruct (send_feishu_notify_total (py "流程异常") (py "签到脚本执行出错：" ++ exn_msg e)
                (tr1 ++ [EvLog (log_line (count is_log tr1) (py "签到流程异常：" ++ exn_msg e))]))
      as [tr3 Hn].
    exists tr3. split; [assumption|].
    unfold run, try_finally, try_except. unfold bind at 1. rewrite H.
    cbn [is_Exception]. unfold bind at 1. unfold log at 1. cbv beta iota zeta.
    now rewrite Hn. }
  repeat split; try assumption.
  destruct (juejin_checkin self tr) as [[b|e] tr1] eqn:H.
  - exists tr1. now apply (Hret b).
  - destruct (Hraise e tr1 eq_refl) as (tr3 & _ & Hrun). now exists tr3.
Qed.

End Workflow.

(** ** The statements at work *)

Section Examples.
Import Scenario.
#[local] Existing Instance plain.

(** A transport that fails twice and then answers: the answer is returned
    and the process sleeps exactly twice. *)
Lemma request_with_retry_attempts_witness :
  let W := scripted [Raises timed_out; Raises timed_out; Returns user_info_ok] in
  fst (request_with_retry me (py "GET") (user_info_url me) []) = Ret (Some user_info_ok) /\
  sleeps (snd (request_with_retry me (py "GET") (user_info_url me) [])) = [60; 60].
Proof.
  intros W.
  destruct (request_with_retry_attempts me (py "GET") (user_info_url me) [])
    as (_ & _ & _ & H & _).
  destruct (H timed_out timed_out user_info_ok) as [Heq Hs].
  - split; reflexivity.
  - split; reflexivity.
  - reflexivity.
  - split; [now rewrite Heq | exact Hs].
Defined.

(** A 403 answer is returned by the first attempt, which is the only one. *)
Lemma request_with_retry_status_not_retried_witness :
  let W := scripted [Returns forbidden] in
  request_with_retry me (py "GET") (user_info_url me) [] =
  (Ret (Some forbidden), [attempt me (py "GET") (user_info_url me)]).
Proof.
  intros W.
  destruct (request_with_retry_status_not_retried me (py "GET") (user_info_url me) [])
    as (H & _ & _).
  apply (H forbidden); [discriminate | reflexivity].
Defined.


Lemma checkin_response_scripted r :
  checkin_response (W := scripted [Returns user_info_ok; Returns r]) me [] r trace_at_answer.
Proof.
  eexists. split; [vm_compute; reflexivity|]. vm_compute. reflexivity.
Defined.



(** The answer [{"err_no":165001}]: success, notified as already done. *)
Lemma checkin_already_done_witness :
  let W := scripted [Returns user_info_ok; Returns (already 200)] in
  fst (juejin_checkin me []) = Ret true /\
  posted (py "已签到") (snd (juejin_checkin me [])) = true /\
  posted (py "失败") (snd (juejin_checkin me [])) = false.
Proof.
  intros W. subst W.
  destruct (checkin_already_done me [] (already 200) trace_at_answer
              [(py "err_no", PInt 165001)] (PInt 165001)
              (checkin_response_scripted (already 200)) eq_refl eq_refl eq_refl eq_refl)
    as (tr5 & Hrun & Hnotify & _).
  rewrite Hrun. cbn [fst snd]. split; [reflexivity|].
  revert Hnotify. vm_compute. intros [= <-]. split; reflexivity.
Defined.

(** The same answer with a status 500: the workflow returns [False] and
    the notification is a failure. *)
Lemma checkin_already_done_cex :
  let W := scripted [Returns user_info_ok; Returns (already 500)] in
  checkin_response me [] (already 500) trace_at_answer /\
  dict_lookup (py "err_no") [(py "err_no", PInt 165001)] = Some (PInt 165001) /\
  fst (juejin_checkin me []) = Ret false /\
  posted (py "已签到") (snd (juejin_checkin me [])) = false /\
  posted (py "签到失败") (snd (juejin_checkin me [])) = true.
Proof.
  intros W. split; [apply checkin_response_scripted|].
  vm_compute. repeat split.
Qed.







(** The credential [sessionid=abc123; uid=42;junk;token=a=b ] yields the
    three pairs, the last one split at its first [=]. *)
Lemma parse_cookie_well_formed_witness :
  _parse_cookie mixed
  = Ret (assign_all [(py "sessionid", py "abc123"); (py "uid", py "42"); (py "token", py "a=b")]) /\
  (forall k v,
     assign_all (segment_pairs mixed_segments) !! k = Some v <->
     In (k, v) [(py "sessionid", py "abc123"); (py "uid", py "42"); (py "token", py "a=b")]).
Proof.
  destruct (proj2 (proj2 parse_cookie_well_formed) mixed mixed_segments eq_refl eq_refl)
    as [H1 H2].
  split; [exact H1|]. apply H2.
  refine (@bool_decide_unpack _ (NoDup_dec _) _). vm_compute. exact I.
Defined.

(** A user-info answer that is not JSON makes the workflow raise; [run]
    logs and notifies the exception and ends with the end-of-run line. *)
Lemma run_never_raises_witness :
  let W := scripted [Returns user_info_html] in
  fst (juejin_checkin me [])
  = Raise (mkExn JSONDecodeError (py "Expecting value: line 1 column 1 (char 0)")) /\
  fst (run me []) = Ret tt /\
  logged (py "签到流程异常：Expecting value: line 1 column 1 (char 0)") (snd (run me [])) = true /\
  posted (py "流程异常") (snd (run me [])) = true /\
  last (snd (run me [])) = Some (EvLog (py "[2024-01-01 08:00:00] ===== 掘金签到流程结束 =====" ++ [ch_newline])).
Proof.
  intros W. subst W. split; [reflexivity|].
  destruct (run_never_raises (W := scripted [Returns user_info_html]) me []) as (_ & H & _).
  destruct (H (mkExn JSONDecodeError (py "Expecting value: line 1 column 1 (char 0)"))
              (snd (juejin_checkin (W := scripted [Returns user_info_html]) me [])))
    as (tr3 & Hnotify & Hrun).
  - vm_compute. reflexivity.
  - rewrite Hrun. cbn [fst snd]. split; [reflexivity|].
    revert Hnotify. vm_compute. intros [= <-]. repeat split.
Defined.

End Examples.

(** * The rest of the script *)

(** ** What a computation costs *)

Section Costs.
Context {L : PyLib} {W : World}.
Variable self : JueJinAutoCheckin.

Lemma costs_weaken {A} (P Q : Event -> Prop) (m : M A) a b a' b' pr pR :
  costs P m a b pr pR -> (forall ev, P ev -> Q ev) -> (a <= a')%nat -> (b <= b')%nat ->
  costs Q m a' b' pr pR.
Proof.
  intros Hm HPQ Ha Hb tr. destruct (Hm tr) as (ext & H1 & HP & Hq & Hs & Hp).
  exists ext. split; [assumption|]. split; [eapply Forall_impl; eauto|].
  split; [lia|]. split; [lia | assumption].
Qed.

Lemma costs_ret {A} P (a : A) pR : costs P (ret a) 0 0 0 pR.
Proof. intros tr. exists []. rewrite app_nil_r. repeat split; auto. Qed.

Lemma costs_lift {A} P (r : result A) : costs P (lift r) 0 0 0 0.
Proof.
  intros tr. exists []. rewrite app_nil_r. unfold lift. cbn [fst snd].
  repeat split; auto. now destruct r.
Qed.

Lemma costs_log content pR : costs (allowed self) (log content) 0 0 0 pR.
Proof.
  intros tr. exists [EvLog (log_line (count is_log tr) content)].
  unfold log. cbn [fst snd]. split; [reflexivity|].
  split; [repeat constructor|]. repeat split; auto.
Qed.

Lemma costs_sleep pR : costs (allowed self) (sleep RETRY_INTERVAL) 0 1 0 pR.
Proof.
  intros tr. exists [EvSleep RETRY_INTERVAL]. unfold sleep. cbn [fst snd].
  split; [reflexivity|]. split; [repeat constructor|]. repeat split; auto.
Qed.

Lemma costs_bind {A B} P (m : M A) (f : A -> M B) a b pr pR a' b' pr' pR' reqs naps posts :
  costs P m a b pr pR -> (forall x, costs P (f x) a' b' pr' pR') ->
  pR = (pr + pR')%nat ->
  (a + a' <= reqs)%nat -> (b + b' <= naps)%nat -> posts = (pr + pr')%nat ->
  costs P (bind m f) reqs naps posts pR.
Proof.
  intros Hm Hf HR Ha Hb -> tr. destruct (Hm tr) as (e1 & H1 & HP1 & Hq1 & Hs1 & Hp1).
  unfold bind. destruct (m tr) as [[x|e] tr1]; cbn [fst snd] in *; subst tr1.
  - destruct (Hf x (tr ++ e1)) as (e2 & H2 & HP2 & Hq2 & Hs2 & Hp2).
    exists (e1 ++ e2). rewrite H2, app_assoc. split; [reflexivity|].
    split; [apply Forall_app; auto|]. rewrite !count_app.
    split; [lia|]. split; [lia|]. rewrite Hp1, Hp2.
    destruct (fst (f x (tr ++ e1))); lia.
  - exists e1. split; [reflexivity|]. split; [assumption|].
    split; [lia|]. split; [lia | assumption].
Qed.

Lemma costs_bind_total {A B} P (m : M A) (f : A -> M B) a b pr pR a' b' pr' pR'
    reqs naps posts :
  costs P m a b pr pR -> (forall x, costs P (f x) a' b' pr' pR') ->
  (forall x, total (f x)) ->
  (a + a' <= reqs)%nat -> (b + b' <= naps)%nat -> posts = (pr + pr')%nat ->
  costs P (bind m f) reqs naps posts pR.
Proof.
  intros Hm Hf Ht Ha Hb -> tr. destruct (Hm tr) as (e1 & H1 & HP1 & Hq1 & Hs1 & Hp1).
  unfold bind. destruct (m tr) as [[x|e] tr1]; cbn [fst snd] in *; subst tr1.
  - destruct (Hf x (tr ++ e1)) as (e2 & H2 & HP2 & Hq2 & Hs2 & Hp2).
    destruct (Ht x (tr ++ e1)) as [y Hy]. rewrite Hy in Hp2.
    exists (e1 ++ e2). rewrite H2, app_assoc. split; [reflexivity|].
    split; [apply Forall_app; auto|]. rewrite !count_app.
    split; [lia|]. split; [lia|]. rewrite Hy. lia.
  - exists e1. split; [reflexivity|]. split; [assumption|].
    split; [lia|]. split; [lia | assumption].
Qed.

Lemma costs_try_except {A} P (body : M A) catches (handler : exn -> M A)
    a b pr pR a' b' pr' pR' reqs naps :
  costs P body a b pr pR -> (forall e, costs P (handler e) a' b' pr' pR') ->
  (forall e, total (handler e)) -> pr = (pR + pr')%nat ->
  (a + a' <= reqs)%nat -> (b + b' <= naps)%nat ->
  costs P (try_except body catches handler) reqs naps pr pR.
Proof.
  intros Hm Hh Ht Hr Ha Hb tr. destruct (Hm tr) as (e1 & H1 & HP1 & Hq1 & Hs1 & Hp1).
  unfold try_except. destruct (body tr) as [[x|e] tr1]; cbn [fst snd] in *; subst tr1.
  - exists e1. split; [reflexivity|]. split; [assumption|].
    split; [lia|]. split; [lia | assumption].
  - destruct (catches e).
    + destruct (Hh e (tr ++ e1)) as (e2 & H2 & HP2 & Hq2 & Hs2 & Hp2).
      destruct (Ht e (tr ++ e1)) as [y Hy]. rewrite Hy in Hp2.
      exists (e1 ++ e2). rewrite H2, app_assoc. split; [reflexivity|].
      split; [apply Forall_app; auto|]. rewrite !count_app.
      split; [lia|]. split; [lia|]. rewrite Hy. lia.
    + exists e1. split; [reflexivity|]. split; [assumption|].
      split; [lia|]. split; [lia | assumption].
Qed.

Lemma costs_try_finally {A} P (body : M A) (cleanup : M unit) a b pr pR a' b' pR' reqs naps :
  costs P body a b pr pR -> costs P cleanup a' b' 0 pR' -> total cleanup ->
  (a + a' <= reqs)%nat -> (b + b' <= naps)%nat ->
  costs P (try_finally body cleanup) reqs naps pr pR.
Proof.
  intros Hm Hc Ht Ha Hb tr. destruct (Hm tr) as (e1 & H1 & HP1 & Hq1 & Hs1 & Hp1).
  unfold try_finally. destruct (body tr) as [r tr1]; cbn [fst snd] in *; subst tr1.
  destruct (Hc (tr ++ e1)) as (e2 & H2 & HP2 & Hq2 & Hs2 & Hp2).
  destruct (Ht (tr ++ e1)) as [y Hy]. rewrite Hy in Hp2.
  destruct (cleanup (tr ++ e1)) as [[u|e] tr2]; cbn [fst snd] in *; [|discriminate].
  subst tr2. exists (e1 ++ e2). rewrite app_assoc. split; [reflexivity|].
  split; [apply Forall_app; auto|]. rewrite !count_app.
  split; [lia|]. split; [lia|]. destruct r; lia.
Qed.

(** Two computations that behave alike cost the same. *)
Lemma costs_ext {A} P (m m' : M A) a b pr pR :
  (forall tr, m tr = m' tr) -> costs P m' a b pr pR -> costs P m a b pr pR.
Proof. intros Heq Hm tr. rewrite Heq. apply Hm. Qed.

Lemma total_ret {A} (a : A) : total (ret a).
Proof. intros tr. now exists a. Qed.

Lemma total_bind {A B} (m : M A) (f : A -> M B) :
  total m -> (forall x, total (f x)) -> total (bind m f).
Proof.
  intros Hm Hf tr. unfold bind. destruct (Hm tr) as [a Ha].
  destruct (m tr) as [[x|e] tr1]; cbn [fst] in Ha; [|discriminate]. apply Hf.
Qed.

Lemma total_log content : total (log content).
Proof. intros tr. eexists. reflexivity. Qed.

Lemma total_sleep seconds : total (sleep seconds).
Proof. intros tr. eexists. reflexivity. Qed.

Lemma total_send_feishu_notify title content : total (send_feishu_notify self title content).
Proof.
  intros tr. destruct (send_feishu_notify_total self title content tr) as [tr' H].
  exists tt. now rewrite H.
Qed.

Lemma total_try_except_all {A} (body : M A) catches (handler : exn -> M A) :
  (forall e, catches e = true) -> (forall e, total (handler e)) ->
  total (try_except body catches handler).
Proof.
  intros Hc Hh tr. unfold try_except. destruct (body tr) as [[x|e] tr1].
  - now exists x.
  - rewrite Hc. apply Hh.
Qed.

Lemma total_try_finally {A} (body : M A) (cleanup : M unit) :
  total body -> total cleanup -> total (try_finally body cleanup).
Proof.
  intros Hb Hc tr. unfold try_finally. destruct (Hb tr) as [x Hx].
  destruct (body tr) as [r tr1]. cbn [fst] in Hx. subst r.
  destruct (Hc tr1) as [u Hu]. destruct (cleanup tr1) as [[v|e] tr2]; [|discriminate].
  now exists x.
Qed.

(** *** The notifier *)

Lemma costs_send_feishu_notify title content pR :
  costs (allowed self) (send_feishu_notify self title content)
        0 0 (posts_per_notification self) pR.
Proof.
  intros tr. unfold send_feishu_notify, posts_per_notification.
  destruct (feishu_token self) as [|c token] eqn:Htoken.
  - exists [EvLog (log_line (count is_log tr) (py "飞书Token未配置，跳过通知"))].
    unfold bind, log, ret. cbn [fst snd]. split; [reflexivity|].
    split; [repeat constructor|]. repeat split; auto.
  - unfold try_except, bind, requests_post, log, ret, is_Exception.
    assert (Hpost : forall payload, allowed self
              (EvPost (py "https://open.feishu.cn/open-apis/bot/v2/hook/" ++ c :: token)
                      payload 10)).
    { intros payload. cbn [allowed]. now rewrite Htoken. }
    destruct (webhook (count is_post tr)) as [r|e]; [destruct (status_code r =? 200)|];
      cbn [fst snd]; rewrite <- app_assoc; eexists; (split; [reflexivity|]);
      (split; [repeat constructor; apply Hpost|]); repeat split; auto.
Qed.

(** Logging a line, notifying and returning: the end of every branch of
    the workflow. *)
Lemma costs_log_notify {A} line title body (x : A) pR :
  costs (allowed self)
        (log line ;;; send_feishu_notify self title body ;;; ret x)
        0 0 (posts_per_notification self) pR.
Proof.
  apply (costs_bind_total _ _ _ 0 0 0 pR 0 0 (posts_per_notification self) pR);
    try lia; try reflexivity.
  - apply costs_log.
  - intros _.
    apply (costs_bind_total _ _ _ 0 0 (posts_per_notification self) pR 0 0 0 pR); try lia.
    + apply costs_send_feishu_notify.
    + intros _. apply costs_ret.
    + intros _. apply total_ret.
  - intros _. apply total_bind; [apply total_send_feishu_notify | intros; apply total_ret].
Qed.

Lemma total_log_notify {A} line title body (x : A) :
  total (log line ;;; send_feishu_notify self title body ;;; ret x).
Proof.
  apply total_bind; [apply total_log | intros _].
  apply total_bind; [apply total_send_feishu_notify | intros; apply total_ret].
Qed.

(** *** The wrapper *)

Lemma costs_request_attempt method url :
  allowed self (attempt self method url) ->
  costs (allowed self)
        (cookies <- lift (_parse_cookie self) ;;
         response <- requests_request method url HEADERS cookies 30 ;;
         ret (Some response))
        1 0 0 0.
Proof.
  intros Hok tr. exists [attempt self method url].
  unfold bind, lift, requests_request, ret. rewrite _parse_cookie_cookies_of.
  destruct (transport (count is_request tr)); cbn [fst snd];
    (split; [reflexivity|]); (split; [constructor; [assumption | constructor]|]);
    repeat split; auto.
Qed.

Lemma costs_retry_handler (i : Z) (e : exn) :
  costs (allowed self)
        (log (py "请求失败（第" ++ int_str (i + 1) ++ py "次）：" ++ exn_msg e) ;;;
         when (i <? RETRY_TIMES - 1) (sleep RETRY_INTERVAL) ;;;
         ret (@None Response))
        0 (if i <? RETRY_TIMES - 1 then 1 else 0) 0 0.
Proof.
  intros tr. unfold bind, log, when, sleep, ret.
  destruct (i <? RETRY_TIMES - 1); cbn [fst snd]; rewrite <- ?app_assoc; eexists;
    (split; [reflexivity|]); (split; [repeat constructor|]); repeat split; auto.
Qed.

Lemma total_retry_handler (i : Z) (e : exn) :
  total (log (py "请求失败（第" ++ int_str (i + 1) ++ py "次）：" ++ exn_msg e) ;;;
         when (i <? RETRY_TIMES - 1) (sleep RETRY_INTERVAL) ;;;
         ret (@None Response)).
Proof.
  apply total_bind; [apply total_log | intros _].
  apply total_bind; [|intros; apply total_ret].
  unfold when. destruct (i <? RETRY_TIMES - 1); [apply total_sleep | apply total_ret].
Qed.

Lemma costs_request_with_retry_loop method url indices :
  allowed self (attempt self method url) ->
  costs (allowed self) (request_with_retry_loop self method url indices)
        (length indices)
        (length (List.filter (fun i => i <? RETRY_TIMES - 1) indices)) 0 0.
Proof.
  intros Hok. induction indices as [|i rest IH]; [apply costs_ret|].
  cbn [request_with_retry_loop List.filter length].
  apply (costs_bind _ _ _ 1 (if i <? RETRY_TIMES - 1 then 1 else 0) 0 0
           (length rest) (length (List.filter (fun i => i <? RETRY_TIMES - 1) rest)) 0 0).
  - apply (costs_try_except _ _ _ _ 1 0 0 0 0 (if i <? RETRY_TIMES - 1 then 1 else 0) 0 0).
    + now apply costs_request_attempt.
    + intros e. apply costs_retry_handler.
    + intros e. apply total_retry_handler.
    + reflexivity.
    + lia.
    + lia.
  - intros [response|]; [|exact IH].
    apply (costs_weaken (allowed self) (allowed self) _ 0 0 _ _ 0 0);
      [apply costs_ret | auto | lia | lia].
  - reflexivity.
  - cbn [length]. lia.
  - destruct (i <? RETRY_TIMES - 1); cbn [length]; lia.
  - reflexivity.
Qed.

Lemma costs_request_with_retry method url :
  allowed self (attempt self method url) ->
  costs (allowed self) (request_with_retry self method url) 3 2 0 0.
Proof. intros Hok. apply (costs_request_with_retry_loop method url [0; 1; 2] Hok). Qed.

(** *** The workflow *)

Ltac quiet :=
  repeat first
    [ apply costs_lift
    | apply costs_log
    | apply costs_ret
    | apply (costs_bind _ _ _ 0 0 0 0 0 0 0 0); [ | intros ? | reflexivity | lia | lia | reflexivity ]
    | match goal with
      | |- costs _ (if ?c then _ else _) _ _ _ _ => destruct c
      end ].

Lemma costs_check_cookie_valid :
  costs (allowed self) (check_cookie_valid self) 3 2 0 0.
Proof.
  unfold check_cookie_valid.
  apply (costs_bind _ _ _ 0 0 0 0 3 2 0 0); try lia; try reflexivity; [apply costs_log|].
  intros _. apply (costs_bind _ _ _ 3 2 0 0 0 0 0 0); try lia; try reflexivity.
  - apply costs_request_with_retry. cbn [allowed attempt]. now left.
  - intros response. quiet.
Qed.

Lemma costs_interpret_result result :
  costs (allowed self) (interpret_result self result) 0 0 (posts_per_notification self) 0.
Proof.
  unfold interpret_result.
  apply (costs_bind _ _ _ 0 0 0 0 0 0 (posts_per_notification self) 0);
    try lia; try reflexivity; [apply costs_lift|].
  intros err_no. destruct (py_eq_int err_no 0); [|destruct (py_eq_int err_no 165001)].
  - do 4 (apply (costs_bind _ _ _ 0 0 0 0 0 0 (posts_per_notification self) 0);
          try lia; try reflexivity; [apply costs_lift | intros ?]).
    apply costs_log_notify.
  - apply costs_log_notify.
  - apply (costs_bind _ _ _ 0 0 0 0 0 0 (posts_per_notification self) 0);
      try lia; try reflexivity; [apply costs_lift | intros ?].
    apply costs_log_notify.
Qed.

(** What [juejin_checkin] does with a response that passed its test. *)
Lemma juejin_checkin_tail r tr :
  (parsed <-
     try_except
       (r0 <- lift (the_response (Some r) (py "json")) ;;
        result <- lift (Response_json r0) ;;
        ret (Some result))
       is_JSONDecodeError
       (fun _ =>
          r0 <- lift (the_response (Some r) (py "text")) ;;
          log (py "签到响应解析失败：" ++ text r0) ;;;
          send_feishu_notify self (py "签到失败")
            (py "接口响应异常：" ++ firstn 100 (text r0)) ;;;
          ret None) ;;
   match parsed with
   | Some result => interpret_result self result
   | None => ret false
   end) tr
  = match decoded r with
    | inl result => interpret_result self result tr
    | inr _ =>
      (log (py "签到响应解析失败：" ++ text r) ;;;
       send_feishu_notify self (py "签到失败")
         (py "接口响应异常：" ++ firstn 100 (text r)) ;;;
       ret false) tr
    end.
Proof.
  cbn [the_response]. unfold bind at 1. unfold try_except. rewrite bind_lift_ret.
  unfold bind at 1. unfold lift at 1. unfold Response_json.
  destruct (decoded r) as [v|msg]; [reflexivity|].
  cbn [is_JSONDecodeError exn_cls]. rewrite bind_lift_ret. unfold bind, log, ret.
  destruct (send_feishu_notify_total self (py "签到失败")
              (py "接口响应异常：" ++ firstn 100 (text r))
              (tr ++ [EvLog (log_line (count is_log tr) (py "签到响应解析失败：" ++ text r))]))
    as [tr5 ->]. reflexivity.
Qed.

Lemma costs_juejin_checkin :
  costs (allowed self) (juejin_checkin self) 6 4 (posts_per_notification self) 0.
Proof.
  unfold juejin_checkin.
  apply (costs_bind _ _ _ 0 0 0 0 6 4 (posts_per_notification self) 0);
    try lia; try reflexivity; [apply costs_log|].
  intros _. apply (costs_bind _ _ _ 3 2 0 0 3 2 (posts_per_notification self) 0);
    try lia; try reflexivity; [apply costs_check_cookie_valid|].
  intros valid. destruct (negb valid).
  - apply (costs_weaken (allowed self) (allowed self) _ 0 0 _ _ _ 0);
      [|auto|apply Nat.le_0_l|apply Nat.le_0_l].
    apply (costs_bind_total _ _ _ 0 0 (posts_per_notification self) 0 0 0 0 0); try lia.
    + apply costs_send_feishu_notify.
    + intros _. apply costs_ret.
    + intros _. apply total_ret.
  - apply (costs_bind _ _ _ 3 2 0 0 0 0 (posts_per_notification self) 0);
      try lia; try reflexivity.
    + apply costs_request_with_retry. cbn [allowed attempt]. now right.
    + intros [r|]; cbn [truthy negb]; [|apply costs_log_notify].
      destruct (Response_bool r); cbn [negb]; [|apply costs_log_notify].
      eapply costs_ext; [apply juejin_checkin_tail|].
      destruct (decoded r) as [v|msg]; [apply costs_interpret_result|].
      apply costs_log_notify.
Qed.

Lemma costs_run :
  costs (allowed self) (run self) 6 4 (posts_per_notification self) 0.
Proof.
  unfold run. apply (costs_try_finally _ _ _ 6 4 _ _ 0 0 0); try lia.
  - apply (costs_try_except _ _ _ _ 6 4 _ 0 0 0 (posts_per_notification self) 0);
      try lia; try reflexivity.
    + apply (costs_bind_total _ _ _ 6 4 (posts_per_notification self) 0 0 0 0 0); try lia.
      * apply costs_juejin_checkin.
      * intros _. apply costs_ret.
      * intros _. apply total_ret.
    + intros e.
      apply (costs_bind_total _ _ _ 0 0 0 0 0 0 (posts_per_notification self) 0);
        try lia; try reflexivity.
      * apply costs_log.
      * intros _. apply costs_send_feishu_notify.
      * intros _. apply total_send_feishu_notify.
    + intros e. apply total_bind; [apply total_log | intros; apply total_send_feishu_notify].
  - apply (costs_bind_total _ _ _ 0 0 0 0 0 0 0 0); try lia; try reflexivity.
    + apply costs_log.
    + intros _. apply costs_ret.
    + intros _. apply total_ret.
  - apply total_bind; [apply total_log | intros; apply total_ret].
Qed.

Lemma total_run : total (run self).
Proof.
  unfold run. apply total_try_finally.
  - apply total_try_except_all; [reflexivity|].
    intros e. apply total_bind; [apply total_log | intros; apply total_send_feishu_notify].
  - apply total_bind; [apply total_log | intros; apply total_ret].
Qed.

End Costs.

(** ** The notifier *)

Section Notifier.
Context {L : PyLib} {W : World}.
Variable self : JueJinAutoCheckin.

(** X1.  [send_feishu_notify] never raises, whatever the webhook does.
    Without a token it posts nothing and logs that it skipped; with a
    token it posts once, the title and the body under the fixed prefix,
    and logs one line: success for a 200, the answer's text for another
    status, the exception's message when the post raised. *)
Theorem send_feishu_notify_never_escalates title content tr :
  let n := count is_log tr in
  (exists line,
     send_feishu_notify self title content tr =
     (Ret tt, tr ++ match feishu_token self with
                    | [] => []
                    | _ => [notification self title content]
                    end ++ [EvLog line])) /\
  (feishu_token self = [] ->
   send_feishu_notify self title content tr =
   (Ret tt, tr ++ [EvLog (log_line n (py "飞书Token未配置，跳过通知"))])) /\
  (forall r,
     feishu_token self <> [] -> webhook (count is_post tr) = Returns r ->
     send_feishu_notify self title content tr =
     (Ret tt, tr ++ [notification self title content;
                     EvLog (log_line n (if status_code r =? 200
                                        then py "飞书通知发送成功"
                                        else py "飞书通知发送失败：" ++ text r))])) /\
  (forall e,
     feishu_token self <> [] -> webhook (count is_post tr) = Raises e ->
     send_feishu_notify self title content tr =
     (Ret tt, tr ++ [notification self title content;
                     EvLog (log_line n (py "飞书通知异常：" ++ exn_msg e))])).
Proof.
  intros n. unfold send_feishu_notify, notification.
  destruct (feishu_token self) as [|c token] eqn:Htoken.
  - refine (conj _ (conj _ (conj _ _))); try congruence.
    + eexists. reflexivity.
    + reflexivity.
  - unfold try_except, bind, requests_post, log, ret, is_Exception.
    assert (Hlog : count is_log (tr ++ [EvPost
              (py "https://open.feishu.cn/open-apis/bot/v2/hook/" ++ c :: token)
              (py "【掘金自动签到】" ++ title ++ [ch_newline] ++ content) 10]) = n).
    { rewrite count_app, count_cons, count_nil. cbn [is_log]. unfold n. lia. }
    refine (conj _ (conj _ (conj _ _))).
    + destruct (webhook (count is_post tr)) as [r|e]; [destruct (status_code r =? 200)|];
        cbn [fst snd]; rewrite <- app_assoc; eexists; reflexivity.
    + discriminate.
    + intros r _ ->.
      destruct (status_code r =? 200); cbv beta iota; now rewrite Hlog, <- app_assoc.
    + intros e _ ->. cbv beta iota. now rewrite Hlog, <- app_assoc.
Qed.

End Notifier.

(** ** A whole run *)

Section Run.
Context {L : PyLib} {W : World}.
Variable self : JueJinAutoCheckin.

Lemma time_slept_app (a b : list Event) : time_slept (a ++ b) = time_slept a + time_slept b.
Proof.
  unfold time_slept. rewrite sleeps_app. induction (sleeps a) as [|x l IH]; simpl; lia.
Qed.

Lemma time_slept_allowed ext :
  Forall (allowed self) ext -> time_slept ext = RETRY_INTERVAL * Z.of_nat (count is_sleep ext).
Proof.
  induction 1 as [|ev ext Hev _ IH]; [reflexivity|].
  change (ev :: ext) with ([ev] ++ ext). rewrite time_slept_app, IH, count_app.
  destruct ev; cbn [allowed] in Hev; unfold time_slept, RETRY_INTERVAL in *; simpl;
    rewrite ?count_cons, ?count_nil; cbn [is_sleep]; try lia.
Qed.

(** X2.  Every run notifies exactly once: it posts one message to the
    webhook when a token is configured and none otherwise, on every
    path.  The workflow itself notifies once when it returns and not at
    all when it raises. *)
Theorem run_notifies_once tr :
  count is_post (snd (run self tr)) = (count is_post tr + posts_per_notification self)%nat /\
  count is_post (snd (juejin_checkin self tr)) =
  (count is_post tr + match fst (juejin_checkin self tr) with
                      | Ret _ => posts_per_notification self
                      | Raise _ => 0
                      end)%nat.
Proof.
  split.
  - destruct (costs_run self tr) as (ext & Hext & _ & _ & _ & Hposts).
    destruct (total_run self tr) as [u Hu]. rewrite Hu in Hposts.
    rewrite Hext, count_app. lia.
  - destruct (costs_juejin_checkin self tr) as (ext & Hext & _ & _ & _ & Hposts).
    rewrite Hext, count_app, Hposts. now destruct (fst (juejin_checkin self tr)).
Qed.

(** X3.  A run makes at most 6 requests and sleeps at most 4 times, 240
    time units in all. *)
Theorem run_is_bounded tr :
  (count is_request (snd (run self tr)) <= count is_request tr + 6)%nat /\
  (count is_sleep (snd (run self tr)) <= count is_sleep tr + 4)%nat /\
  time_slept (snd (run self tr)) <= time_slept tr + 240.
Proof.
  destruct (costs_run self tr) as (ext & Hext & Hall & Hreq & Hnap & _).
  rewrite Hext, !count_app, time_slept_app, (time_slept_allowed ext Hall).
  unfold RETRY_INTERVAL. repeat split; lia.
Qed.

(** X4.  A run only adds to the trace, and reaches nothing but the two
    endpoints of the platform, called with the fixed headers, the parsed
    cookies and the 30 time-out, and the webhook of the configured token. *)
Theorem run_contacts_only tr :
  exists ext, snd (run self tr) = tr ++ ext /\ Forall (allowed self) ext.
Proof.
  destruct (costs_run self tr) as (ext & Hext & Hall & _). now exists ext.
Qed.

End Run.

(** ** More on the retrying wrapper *)

Section WrapperMore.
Context {L : PyLib} {W : World}.
Variable self : JueJinAutoCheckin.

Lemma loop_raises_only_other method url indices : forall tr e,
  fst (request_with_retry_loop self method url indices tr) = Raise e ->
  is_RequestException e = false.
Proof.
  induction indices as [|i rest IH]; intros tr e; [discriminate|].
  destruct (transport (count is_request tr)) as [r|e0] eqn:Ht.
  - rewrite (loop_returns self _ _ _ _ _ _ Ht). discriminate.
  - destruct (is_RequestException e0) eqn:He.
    + rewrite (loop_retries self _ _ _ _ _ _ Ht He). apply IH.
    + rewrite (loop_propagates self _ _ _ _ _ _ Ht He). cbn [fst]. now intros [= <-].
Qed.

Lemma loop_raises_after method url indices : forall tr j e,
  (j < length indices)%nat ->
  (forall i, (i < j)%nat -> exists e', transport_fails (count is_request tr + i) e') ->
  transport (count is_request tr + j) = Raises e -> is_RequestException e = false ->
  fst (request_with_retry_loop self method url indices tr) = Raise e /\
  exists mid,
    snd (request_with_retry_loop self method url indices tr)
    = tr ++ mid ++ [attempt self method url] /\
    count is_request mid = j.
Proof.
  induction indices as [|i0 rest IH]; intros tr j e Hj Hfail Hraise He; simpl in Hj; [lia|].
  destruct j as [|j].
  - rewrite Nat.add_0_r in Hraise. rewrite (loop_propagates self _ _ _ _ _ _ Hraise He).
    split; [reflexivity|]. now exists [].
  - destruct (Hfail 0%nat ltac:(lia)) as (e0 & Ht & He0). rewrite Nat.add_0_r in Ht.
    rewrite (loop_retries self _ _ _ _ _ _ Ht He0).
    set (step := [attempt self method url; EvLog _] ++ _).
    assert (Hk : count is_request (tr ++ step) = S (count is_request tr)).
    { unfold step. destruct (i0 <? RETRY_TIMES - 1); count_events; lia. }
    destruct (IH (tr ++ step) j e) as (H1 & mid & H2 & H3).
    + lia.
    + intros i Hi. rewrite Hk. destruct (Hfail (S i) ltac:(lia)) as [e' He'].
      exists e'. now replace (S (count is_request tr) + i)%nat
                   with (count is_request tr + S i)%nat by lia.
    + rewrite Hk. now replace (S (count is_request tr) + j)%nat
                   with (count is_request tr + S j)%nat by lia.
    + assumption.
    + split; [assumption|]. exists (step ++ mid). rewrite H2, <- !app_assoc.
      split; [reflexivity|]. rewrite count_app, H3. rewrite count_app in Hk. lia.
Qed.

(** X5.  No transport exception leaves [request_with_retry]: what it
    raises is never a [RequestException].  An exception of another kind
    is not retried: it ends the wrapper at the attempt that raised it,
    with nothing logged or slept after that attempt. *)
Theorem request_with_retry_propagates method url tr :
  let k := count is_request tr in
  let out := request_with_retry self method url tr in
  (forall e, fst out = Raise e -> is_RequestException e = false) /\
  (forall j e,
     (j < 3)%nat ->
     (forall i, (i < j)%nat -> exists e', transport_fails (k + i) e') ->
     transport (k + j) = Raises e -> is_RequestException e = false ->
     fst out = Raise e /\
     exists mid, snd out = tr ++ mid ++ [attempt self method url] /\
                 count is_request mid = j).
Proof.
  intros k out. unfold out, request_with_retry. rewrite range_RETRY_TIMES. split.
  - intros e. apply loop_raises_only_other.
  - intros j e Hj. now apply (loop_raises_after method url [0; 1; 2] tr j e).
Qed.

Lemma loop_only_wrapper_events method url indices : forall tr,
  exists ext,
    snd (request_with_retry_loop self method url indices tr) = tr ++ ext /\
    Forall (wrapper_event self method url) ext.
Proof.
  induction indices as [|i rest IH]; intros tr.
  - exists []. now rewrite app_nil_r.
  - destruct (transport (count is_request tr)) as [r|e] eqn:Ht.
    + rewrite (loop_returns self _ _ _ _ _ _ Ht). eexists. split; [reflexivity|].
      repeat constructor.
    + destruct (is_RequestException e) eqn:He.
      * rewrite (loop_retries self _ _ _ _ _ _ Ht He).
        destruct (IH (tr ++ [attempt self method url;
                        EvLog (failure_line (count is_log tr) (i + 1) e)]
                        ++ (if i <? RETRY_TIMES - 1 then [EvSleep RETRY_INTERVAL] else [])))
          as (ext & Hext & Hall).
        eexists. rewrite Hext, <- app_assoc. split; [reflexivity|].
        apply Forall_app. split; [|assumption].
        destruct (i <? RETRY_TIMES - 1); repeat constructor.
      * rewrite (loop_propagates self _ _ _ _ _ _ Ht He). eexists. split; [reflexivity|].
        repeat constructor.
Qed.

(** X6.  [request_with_retry] only adds to the trace, and what it adds is
    log lines, sleeps of 60 and requests; every request is the same call:
    the method and the URL asked for, the fixed headers, the cookies
    parsed from the credential, the time-out 30.  It posts nothing. *)
Theorem request_with_retry_same_call method url tr :
  exists ext,
    snd (request_with_retry self method url tr) = tr ++ ext /\
    Forall (wrapper_event self method url) ext /\
    count is_post ext = 0%nat.
Proof.
  destruct (loop_only_wrapper_events method url (range RETRY_TIMES) tr) as (ext & Hext & Hall).
  exists ext. split; [exact Hext|]. split; [exact Hall|].
  clear Hext. induction Hall as [|ev ext Hev _ IH]; [reflexivity|].
  rewrite count_cons, IH. destruct ev; cbn [wrapper_event is_post] in *; tauto.
Qed.

End WrapperMore.

(** ** The other branches of the workflow *)

Section WorkflowMore.
Context {L : PyLib} {W : World}.
Variable self : JueJinAutoCheckin.

(** [juejin_checkin], step by step. *)
Lemma juejin_checkin_steps tr :
  juejin_checkin self tr =
  match check_cookie_valid self
          (tr ++ [EvLog (log_line (count is_log tr) (py "===== 开始执行掘金签到 ====="))]) with
  | (Raise e, tr2) => (Raise e, tr2)
  | (Ret false, tr2) =>
    (send_feishu_notify self (py "签到失败") (py "Cookie无效/已过期，请重新导出更新") ;;;
     ret false) tr2
  | (Ret true, tr2) =>
    match request_with_retry self (py "POST") (checkin_url self) tr2 with
    | (Raise e, tr3) => (Raise e, tr3)
    | (Ret response, tr3) =>
      if truthy response then
        match response with
        | Some r =>
          match decoded r with
          | inl result => interpret_result self result tr3
          | inr _ =>
            (log (py "签到响应解析失败：" ++ text r) ;;;
             send_feishu_notify self (py "签到失败")
               (py "接口响应异常：" ++ firstn 100 (text r)) ;;;
             ret false) tr3
          end
        | None => (Ret false, tr3)
        end
      else
        (log (py "签到请求重试多次仍失败") ;;;
         send_feishu_notify self (py "签到失败") (py "签到接口请求超时/异常，请手动签到") ;;;
         ret false) tr3
    end
  end.
Proof.
  unfold juejin_checkin. unfold bind at 1. unfold log at 1. cbv beta iota.
  unfold bind at 1.
  destruct (check_cookie_valid self _) as [[[|]|e] tr2]; cbn [negb]; try reflexivity.
  unfold bind at 1.
  destruct (request_with_retry self (py "POST") (checkin_url self) tr2)
    as [[[r|]|e] tr3]; cbn [truthy negb]; try reflexivity.
  destruct (Response_bool r); cbn [negb]; [|reflexivity].
  apply juejin_checkin_tail.
Qed.

(** X7.  With a credential found invalid, the workflow makes no request
    to the check-in endpoint: it notifies the failure and returns
    [False]. *)
Theorem juejin_checkin_invalid_credential tr tr2 :
  check_cookie_valid self
    (tr ++ [EvLog (log_line (count is_log tr) (py "===== 开始执行掘金签到 ====="))])
  = (Ret false, tr2) ->
  let body := py "Cookie无效/已过期，请重新导出更新" in
  exists tr5,
    juejin_checkin self tr = (Ret false, tr5) /\
    send_feishu_notify self (py "签到失败") body tr2 = (Ret tt, tr5) /\
    count is_request tr5 = count is_request tr2 /\
    (feishu_token self <> [] -> In (notification self (py "签到失败") body) tr5).
Proof.
  intros Hvalid body. rewrite juejin_checkin_steps, Hvalid.
  destruct (send_feishu_notify_total self (py "签到失败") body tr2) as [tr5 Hn].
  exists tr5. unfold bind, ret. fold body. rewrite Hn. split; [reflexivity|].
  split; [reflexivity|]. split.
  - destruct (costs_send_feishu_notify self (py "签到失败") body 0 tr2)
      as (ext & Hext & _ & Hreq & _).
    rewrite Hn in Hext. cbn [snd] in Hext. rewrite Hext, count_app. lia.
  - intros Htok. now apply (send_feishu_notify_posts self _ _ _ _ Htok Hn).
Qed.

(** X8.  When the wrapper hands the workflow nothing usable for the
    check-in, that is [None] or an answer with a status from 400 to 599,
    the workflow logs that the request failed, notifies it and returns
    [False]; the body of such an answer is not read. *)
Theorem juejin_checkin_request_failed tr tr2 response tr3 :
  check_cookie_valid self
    (tr ++ [EvLog (log_line (count is_log tr) (py "===== 开始执行掘金签到 ====="))])
  = (Ret true, tr2) ->
  request_with_retry self (py "POST") (checkin_url self) tr2 = (Ret response, tr3) ->
  (response = None \/
   exists r, response = Some r /\ 400 <= status_code r /\ status_code r < 600) ->
  let body := py "签到接口请求超时/异常，请手动签到" in
  exists tr5,
    juejin_checkin self tr = (Ret false, tr5) /\
    send_feishu_notify self (py "签到失败") body
      (tr3 ++ [EvLog (log_line (count is_log tr3) (py "签到请求重试多次仍失败"))])
    = (Ret tt, tr5) /\
    (feishu_token self <> [] -> In (notification self (py "签到失败") body) tr5).
Proof.
  intros Hvalid Hresp Hbad body. rewrite juejin_checkin_steps, Hvalid, Hresp.
  assert (Hfalsy : truthy response = false).
  { destruct Hbad as [->|(r & -> & Hlo & Hhi)]; [reflexivity|].
    cbn [truthy]. unfold Response_bool.
    apply Z.leb_le in Hlo. apply Z.ltb_lt in Hhi. now rewrite Hlo, Hhi. }
  rewrite Hfalsy.
  destruct (log_notify_ret self (py "签到请求重试多次仍失败") (py "签到失败") body false tr3)
    as (tr5 & Hrun & Hn).
  exists tr5. split; [exact Hrun|]. split; [exact Hn|].
  intros Htok. now apply (send_feishu_notify_posts self _ _ _ _ Htok Hn).
Qed.

Lemma interpret_result_true result tr :
  fst (interpret_result self result tr) = Ret true ->
  exists items,
    result = PDict items /\
    (py_eq_int (dict_get items (py "err_no") (PInt (-1))) 0 = true \/
     py_eq_int (dict_get items (py "err_no") (PInt (-1))) 165001 = true).
Proof.
  unfold interpret_result.
  destruct result as [| | | | | |items]; try discriminate.
  cbn [py_get]. rewrite bind_lift_ret.
  destruct (py_eq_int (dict_get items (py "err_no") (PInt (-1))) 0) eqn:H0;
    [intros _; exists items; auto|].
  destruct (py_eq_int (dict_get items (py "err_no") (PInt (-1))) 165001) eqn:H1;
    [intros _; exists items; auto|].
  rewrite bind_lift_ret.
  match goal with
  | |- fst ((log ?line ;;; send_feishu_notify self ?t ?b ;;; ret false) tr) = _ -> _ =>
    destruct (log_notify_ret self line t b false tr) as (tr5 & -> & _)
  end.
  discriminate.
Qed.

(** X9.  The workflow returns [True] only when the credential was found
    valid, the check-in answer passed the response test, and its body
    decoded to an object whose [err_no] equals 0 or 165001. *)
Theorem juejin_checkin_true_only_if tr :
  fst (juejin_checkin self tr) = Ret true ->
  exists r tr3 items,
    checkin_response self tr r tr3 /\
    Response_bool r = true /\
    decoded r = inl (PDict items) /\
    (py_eq_int (dict_get items (py "err_no") (PInt (-1))) 0 = true \/
     py_eq_int (dict_get items (py "err_no") (PInt (-1))) 165001 = true).
Proof.
  rewrite juejin_checkin_steps.
  destruct (check_cookie_valid self _) as [[[|]|e] tr2] eqn:Hvalid; try discriminate.
  - destruct (request_with_retry self (py "POST") (checkin_url self) tr2)
      as [[[r|]|e] tr3] eqn:Hresp; cbn [truthy]; try discriminate.
    + destruct (Response_bool r) eqn:Hbool.
      * destruct (decoded r) as [v|msg] eqn:Hd.
        -- intros H. destruct (interpret_result_true v tr3 H) as (items & -> & Herr).
           exists r, tr3, items. split; [exists tr2; now split|]. auto.
        -- match goal with
           | |- fst ((log ?line ;;; send_feishu_notify self ?t ?b ;;; ret false) tr3) = _ -> _ =>
             destruct (log_notify_ret self line t b false tr3) as (tr5 & -> & _)
           end.
           discriminate.
      * match goal with
        | |- fst ((log ?line ;;; send_feishu_notify self ?t ?b ;;; ret false) tr3) = _ -> _ =>
          destruct (log_notify_ret self line t b false tr3) as (tr5 & -> & _)
        end.
        discriminate.
    + match goal with
      | |- fst ((log ?line ;;; send_feishu_notify self ?t ?b ;;; ret false) tr3) = _ -> _ =>
        destruct (log_notify_ret self line t b false tr3) as (tr5 & -> & _)
      end.
      discriminate.
  - unfold bind, ret.
    destruct (send_feishu_notify_total self (py "签到失败")
                (py "Cookie无效/已过期，请重新导出更新") tr2) as [tr5 ->].
    discriminate.
Qed.

(** *** Credential validation, case by case *)

Ltac enter_check_cookie_valid Hw :=
  unfold check_cookie_valid; unfold bind at 1; unfold log at 1; cbv beta iota;
  unfold bind at 1; rewrite Hw; cbn [truthy].



End WorkflowMore.

(** ** More on cookie parsing *)

Section CookieMore.

Lemma _parse_cookie_segments self segs :
  juejin_cookie self = str_join [ch_semicolon] (List.map segment_text segs) ->
  forallb well_formed segs = true ->
  _parse_cookie self = Ret (assign_all (segment_pairs segs)).
Proof.
  intros Hcookie Hwf. rewrite _parse_cookie_loop, Hcookie.
  destruct segs as [|seg rest]; [reflexivity|]. rewrite str_split_join.
  - now apply parse_cookie_items_segments.
  - discriminate.
  - apply List.Forall_forall. intros p Hp. apply in_map_iff in Hp as (sg & <- & Hsg).
    apply segment_text_no_semicolon. rewrite forallb_forall in Hwf. now apply Hwf.
Qed.

Lemma fold_insert_other (pairs : list (pystr * pystr)) : forall (d : gmap pystr pystr) k,
  ~ In k (List.map fst pairs) ->
  fold_left (fun d kv => <[fst kv := snd kv]> d) pairs d !! k = d !! k.
Proof.
  induction pairs as [|[k0 v0] rest IH]; intros d k Hk; [reflexivity|].
  simpl in *. rewrite IH by tauto. apply lookup_insert_ne. tauto.
Qed.

Lemma fold_insert_In (pairs : list (pystr * pystr)) : forall (d : gmap pystr pystr) k v,
  fold_left (fun d kv => <[fst kv := snd kv]> d) pairs d !! k = Some v ->
  In (k, v) pairs \/ d !! k = Some v.
Proof.
  induction pairs as [|[k0 v0] rest IH]; intros d k v H; [now right|].
  simpl in H. destruct (IH _ _ _ H) as [Hin|Hd]; [left; now right|].
  destruct (decide (k0 = k)) as [->|Hne].
  - rewrite lookup_insert_eq in Hd. injection Hd as ->. left. now left.
  - rewrite lookup_insert_ne in Hd by assumption. now right.
Qed.

(** X12.  A key that comes twice keeps its last value: the mapping holds,
    for a key, the value of the last key=value segment with that key, and
    nothing for a key of no segment. *)
Theorem parse_cookie_last_wins self segs :
  juejin_cookie self = str_join [ch_semicolon] (List.map segment_text segs) ->
  forallb well_formed segs = true ->
  exists d,
    _parse_cookie self = Ret d /\
    (forall before k v after,
       segment_pairs segs = before ++ (k, v) :: after ->
       ~ In k (List.map fst after) ->
       d !! k = Some v) /\
    (forall k, ~ In k (List.map fst (segment_pairs segs)) -> d !! k = None).
Proof.
  intros Hcookie Hwf. exists (assign_all (segment_pairs segs)).
  split; [now apply _parse_cookie_segments|]. unfold assign_all. split.
  - intros before k v after -> Hafter. rewrite fold_left_app. cbn [fold_left fst snd].
    rewrite fold_insert_other by assumption. apply lookup_insert_eq.
  - intros k Hk. rewrite fold_insert_other by assumption. apply lookup_empty.
Qed.

Lemma segment_pairs_In segs k v :
  In (k, v) (segment_pairs segs) -> exists lead trail, In (KeyValue lead k v trail) segs.
Proof.
  induction segs as [|[l k0 v0 t|s0] rest IH]; simpl; [tauto| |].
  - intros [[= -> ->]|H]; [exists l, t; now left|].
    destruct (IH H) as (l' & t' & Hin). exists l', t'. now right.
  - intros H. destruct (IH H) as (l' & t' & Hin). exists l', t'. now right.
Qed.

Lemma str_join_In c p parts :
  In p parts -> exists a b, str_join [c] parts = a ++ p ++ b.
Proof.
  induction parts as [|q rest IH]; [intros []|].
  intros [->|Hin].
  - destruct rest as [|q' rest].
    + exists [], []. simpl. now rewrite app_nil_r.
    + exists [], (c :: str_join [c] (q' :: rest)). now rewrite str_join_cons.
  - destruct (IH Hin) as (a & b & Heq). destruct rest as [|q' rest]; [destruct Hin|].
    exists (q ++ c :: a), b. rewrite str_join_cons, Heq, <- app_assoc. reflexivity.
Qed.

Lemma _parse_cookie_entry self d k v :
  _parse_cookie self = Ret d -> d !! k = Some v ->
  ~ In ch_equals k /\ ~ In ch_semicolon k /\ ~ In ch_semicolon v /\
  no_lead_space k = true /\ no_trail_space v = true /\
  str_in (k ++ ch_equals :: v) (juejin_cookie self) = true.
Proof.
  intros Hparse Hlookup.
  destruct (cookie_segments_complete (juejin_cookie self)) as [Hjoin Hwf].
  set (segs := List.map to_segment (str_split ch_semicolon (juejin_cookie self))) in *.
  rewrite (_parse_cookie_segments self segs (eq_sym Hjoin) Hwf) in Hparse.
  injection Hparse as <-. unfold assign_all in Hlookup.
  apply fold_insert_In in Hlookup as [Hin|Hempty]; [|now rewrite lookup_empty in Hempty].
  apply segment_pairs_In in Hin as (l & t & Hin).
  assert (Hseg : well_formed (KeyValue l k v t) = true)
    by (rewrite forallb_forall in Hwf; now apply Hwf).
  cbn [well_formed] in Hseg. repeat (apply andb_true_iff in Hseg as [Hseg ?]).
  repeat split; try assumption; try (now apply no_char_spec).
  destruct (str_join_In ch_semicolon (segment_text (KeyValue l k v t))
              (List.map segment_text segs)) as (a & b & Heq).
  { apply in_map_iff. now exists (KeyValue l k v t). }
  rewrite <- Hjoin, Heq. cbn [segment_text].
  replace (a ++ (l ++ k ++ ch_equals :: v ++ t) ++ b)
    with ((a ++ l) ++ (k ++ ch_equals :: v) ++ (t ++ b))
    by (rewrite <- !app_assoc; cbn [app]; now rewrite <- !app_assoc).
  apply str_in_middle.
Qed.

(** X13.  Whatever the credential string, every pair of the parsed
    mapping is written in it as key=value; the key holds no [=] and no
    [;] and does not start with white space, the value holds no [;] and
    does not end with white space. *)
Theorem parse_cookie_entries_sound self d k v :
  _parse_cookie self = Ret d -> d !! k = Some v ->
  str_in (k ++ ch_equals :: v) (juejin_cookie self) = true /\
  ~ In ch_equals k /\ ~ In ch_semicolon k /\ ~ In ch_semicolon v /\
  no_lead_space k = true /\ no_trail_space v = true.
Proof.
  intros Hparse Hlookup.
  destruct (_parse_cookie_entry self d k v Hparse Hlookup) as (H1 & H2 & H3 & H4 & H5 & H6).
  repeat split; assumption.
Qed.

(** X14.  A credential with no [=] in it, the empty one included, gives
    the empty mapping: the requests then carry no cookie. *)
Theorem parse_cookie_without_equals self :
  ~ In ch_equals (juejin_cookie self) ->
  _parse_cookie self = Ret ∅ /\ cookies_of self = ∅.
Proof.
  intros Hno. destruct (_parse_cookie_total self) as [d Hd].
  assert (Hempty : d = ∅).
  { apply map_empty. intros k. destruct (d !! k) as [v|] eqn:Hk; [|reflexivity].
    destruct (_parse_cookie_entry self d k v Hd Hk) as (_ & _ & _ & _ & _ & Hin).
    exfalso. apply Hno.
    assert (Hsub : forall (needle hay : pystr) x,
              str_in needle hay = true -> In x needle -> In x hay).
    { intros needle hay x. induction hay as [|c hay IH]; simpl.
      - rewrite orb_false_r. destruct needle; [intros _ []|discriminate].
      - rewrite orb_true_iff. intros [Hpre|Hrest] Hx; [|right; now apply IH].
        clear IH. revert c hay Hpre x Hx.
        induction needle as [|a needle IHn]; intros c hay Hpre x Hx; [destruct Hx|].
        simpl in Hpre. apply andb_true_iff in Hpre as [Hac Hpre].
        apply N.eqb_eq in Hac. subst c. destruct Hx as [->|Hx]; [now left|].
        right. destruct hay as [|c' hay]; [destruct needle; [destruct Hx|discriminate]|].
        now apply (IHn c' hay). }
    apply (Hsub _ _ ch_equals Hin). apply in_app_iff. right. now left. }
  subst d. split; [assumption|]. unfold cookies_of. now rewrite Hd.
Qed.

End CookieMore.

(** ** These statements at work *)

Section ExamplesMore.
Import Scenario.
#[local] Existing Instance plain.

(** A webhook that refuses the connection: the notifier returns, and the
    refusal is in the log. *)
Lemma send_feishu_notify_never_escalates_witness :
  let W := scripted_hook [] (Raises refused) in
  send_feishu_notify me (py "签到成功") (py "ok") [] =
  (Ret tt, [notification me (py "签到成功") (py "ok");
            EvLog (py "[2024-01-01 08:00:00] 飞书通知异常：Connection refused")]).
Proof.
  intros W. subst W.
  destruct (send_feishu_notify_never_escalates
              (W := scripted_hook [] (Raises refused)) me (py "签到成功") (py "ok") [])
    as (_ & _ & _ & H).
  rewrite (H refused); [reflexivity | discriminate | reflexivity].
Defined.

(** A time-out and then an exception of another kind: the second attempt
    ends the wrapper. *)
Lemma request_with_retry_propagates_witness :
  let W := scripted [Raises timed_out; Raises broken] in
  fst (request_with_retry me (py "GET") (user_info_url me) []) = Raise broken /\
  count is_request (snd (request_with_retry me (py "GET") (user_info_url me) [])) = 2%nat.
Proof.
  intros W. subst W.
  destruct (request_with_retry_propagates
              (W := scripted [Raises timed_out; Raises broken])
              me (py "GET") (user_info_url me) []) as (_ & H).
  destruct (H 1%nat broken) as (Hraise & mid & Hext & Hmid).
  - lia.
  - intros i Hi. exists timed_out. replace i with 0%nat by lia. split; reflexivity.
  - reflexivity.
  - reflexivity.
  - split; [exact Hraise|]. rewrite Hext, !count_app, Hmid. reflexivity.
Defined.

(** A 403 on the user-info endpoint: no check-in request, one failure
    notification. *)
Lemma juejin_checkin_invalid_credential_witness :
  let W := scripted [Returns forbidden] in
  fst (juejin_checkin me []) = Ret false /\
  count is_request (snd (juejin_checkin me [])) = 1%nat /\
  posted (py "Cookie无效/已过期") (snd (juejin_checkin me [])) = true.
Proof.
  intros W. subst W.
  destruct (juejin_checkin_invalid_credential (W := scripted [Returns forbidden]) me []
              (snd (check_cookie_valid (W := scripted [Returns forbidden]) me
                      [EvLog (py "[2024-01-01 08:00:00] ===== 开始执行掘金签到 =====")])))
    as (tr5 & Hrun & Hn & Hreq & _).
  - vm_compute. reflexivity.
  - rewrite Hrun. cbn [fst snd]. split; [reflexivity|]. split.
    + rewrite Hreq. vm_compute. reflexivity.
    + revert Hn. vm_compute. now intros [= <-].
Defined.

(** A check-in endpoint that times out three times. *)
Lemma juejin_checkin_request_failed_witness :
  let W := scripted [Returns user_info_ok] in
  fst (juejin_checkin me []) = Ret false /\
  posted (py "签到接口请求超时/异常") (snd (juejin_checkin me [])) = true.
Proof.
  intros W. subst W.
  destruct (juejin_checkin_request_failed (W := scripted [Returns user_info_ok]) me []
              (snd (check_cookie_valid (W := scripted [Returns user_info_ok]) me
                      [EvLog (py "[2024-01-01 08:00:00] ===== 开始执行掘金签到 =====")]))
              None
              (snd (request_with_retry (W := scripted [Returns user_info_ok]) me
                      (py "POST") (checkin_url me)
                      (snd (check_cookie_valid (W := scripted [Returns user_info_ok]) me
                              [EvLog (py "[2024-01-01 08:00:00] ===== 开始执行掘金签到 =====")])))))
    as (tr5 & Hrun & Hn & _).
  - vm_compute. reflexivity.
  - vm_compute. reflexivity.
  - now left.
  - rewrite Hrun. cbn [fst snd]. split; [reflexivity|].
    revert Hn. vm_compute. now intros [= <-].
Defined.

(** The successful run: the answer that made it succeed is the scripted
    one. *)
Lemma juejin_checkin_true_only_if_witness :
  let W := scripted [Returns user_info_ok; Returns (points 200)] in
  exists r tr3 items,
    checkin_response me [] r tr3 /\ Response_bool r = true /\
    decoded r = inl (PDict items) /\
    (py_eq_int (dict_get items (py "err_no") (PInt (-1))) 0 = true \/
     py_eq_int (dict_get items (py "err_no") (PInt (-1))) 165001 = true).
Proof.
  intros W. subst W.
  apply (juejin_checkin_true_only_if
           (W := scripted [Returns user_info_ok; Returns (points 200)]) me []).
  vm_compute. reflexivity.
Defined.



(** [sid=old; uid=42;sid=new]: [sid] is [new]. *)
Lemma parse_cookie_last_wins_witness :
  exists d,
    _parse_cookie repeated = Ret d /\
    d !! py "sid" = Some (py "new") /\ d !! py "uid" = Some (py "42") /\
    d !! py "token" = None.
Proof.
  destruct (parse_cookie_last_wins repeated repeated_segments eq_refl eq_refl)
    as (d & Hd & Hlast & Hnone).
  exists d. split; [exact Hd|]. split; [|split].
  - apply (Hlast [(py "sid", py "old"); (py "uid", py "42")] _ _ []); [reflexivity|].
    intros [].
  - apply (Hlast [(py "sid", py "old")] _ _ [(py "sid", py "new")]); [reflexivity|].
    vm_compute. intros [H|[]]. discriminate.
  - apply Hnone. vm_compute. intros [H|[H|[H|[]]]]; discriminate.
Defined.

(** The pair [uid], [42] of the padded credential is written in it. *)
Lemma parse_cookie_entries_sound_witness :
  str_in (py "uid=42") (juejin_cookie mixed) = true /\ no_lead_space (py "uid") = true.
Proof.
  destruct (parse_cookie_entries_sound mixed (cookies_of mixed) (py "uid") (py "42"))
    as (H1 & _ & _ & _ & H2 & _).
  - apply _parse_cookie_cookies_of.
  - vm_compute. reflexivity.
  - split; [exact H1 | exact H2].
Defined.

(** [junk; more] gives no cookie. *)
Lemma parse_cookie_without_equals_witness :
  _parse_cookie no_pairs = Ret ∅.
Proof.
  apply (parse_cookie_without_equals no_pairs). vm_compute.
  intros H. repeat (destruct H as [H|H]; [discriminate|]). exact H.
Defined.

(** The bounds of a run are reached: a credential check that succeeds at
    the third attempt, then a check-in that fails three times. *)
Lemma run_bounds_reached :
  let W := scripted [Raises timed_out; Raises timed_out; Returns user_info_ok] in
  count is_request (snd (run me [])) = 6%nat /\
  time_slept (snd (run me [])) = 240 /\
  count is_post (snd (run me [])) = 1%nat.
Proof. vm_compute. repeat split. Qed.

End ExamplesMore.
